(** * studylib: the caching and library-introspection subsystem

    A shallow embedding of
      - [lib/cache/CacheManager.ts]      (file-backed TTL / size-bounded store),
      - [lib/RequireLibraryContext.ts]   (library resolver and its in-memory tier),
      - [services/AIResponseCache.ts]    (documentation response cache),
      - [lib/errors/StudylibError.ts]    (structured errors),
    followed by the properties of the specification, each settled on the
    embedded code.

    Conventions.  JavaScript numbers that hold integers (timestamps, byte
    counts, TTLs) are [Z].  JavaScript strings are [string], read as the
    UTF-8 bytes of the text, which is what [Buffer.from(key)] produces.
    Asynchronous methods are run to completion: the code has a single logical
    thread and awaits every promise it creates, so an [async] method is a
    state transformer that either returns or throws. *)

From Stdlib Require Import ZArith String Ascii List Lia.
From Stdlib Require Import DecimalString DecimalZ DecimalPos Permutation Sorted.
From stdpp Require Import gmap strings list fin_maps sorting.

Set Warnings "-register-all".

Open Scope string_scope.
Open Scope list_scope.
Open Scope Z_scope.

(** ** Errors: [StudylibError.ts] *)

Inductive ErrorCode : Type :=
  | CONFIG_ERROR
  | API_ERROR
  | VALIDATION_ERROR
  | PARSING_ERROR
  | LIBRARY_NOT_FOUND
  | DOCUMENTATION_ERROR.

(** What a [throw] carries: a [StudylibError] (message and code; the optional
    [details] payload only decorates the error and is left out), or any other
    runtime error ([ENOENT], [SyntaxError], [TypeError], ...), named by a
    label. *)
Inductive exn : Type :=
  | StudylibError (message : string) (code : ErrorCode)
  | RuntimeError (label : string).

Definition is_StudylibError (e : exn) : bool :=
  match e with StudylibError _ _ => true | RuntimeError _ => false end.

(** ** Computations that read and write a state and may throw *)

Inductive result (A : Type) : Type :=
  | Ok (a : A)
  | Throw (e : exn).
Arguments Ok {A} a.
Arguments Throw {A} e.

Definition M (S A : Type) : Type := S -> result A * S.

Definition ret {S A} (a : A) : M S A := fun s => (Ok a, s).

Definition bind {S A B} (m : M S A) (k : A -> M S B) : M S B :=
  fun s => match m s with
           | (Ok a, s') => k a s'
           | (Throw e, s') => (Throw e, s')
           end.

Definition throw {S A} (e : exn) : M S A := fun s => (Throw e, s).

(** [try { body } catch (error) { handler(error) }]: the state at the point of
    the throw is the state the handler starts from. *)
Definition try_catch {S A} (body : M S A) (handler : exn -> M S A) : M S A :=
  fun s => match body s with
           | (Ok a, s') => (Ok a, s')
           | (Throw e, s') => handler e s'
           end.

Definition gets {S A} (f : S -> A) : M S A := fun s => (Ok (f s), s).
Definition modify {S} (f : S -> S) : M S unit := fun s => (Ok tt, f s).

(** Run a computation on a component of a larger state. *)
Definition zoom {S T A} (get : T -> S) (put : S -> T -> T) (m : M S A) : M T A :=
  fun t => let (r, s') := m (get t) in (r, put s' t).

Declare Scope comp_scope.
Delimit Scope comp_scope with comp.
Notation "x <- c1 ;; c2" := (bind c1 (fun x => c2))
  (at level 100, c1 at next level, right associativity) : comp_scope.
Notation "c1 ;;; c2" := (bind c1 (fun _ => c2))
  (at level 100, right associativity) : comp_scope.
Open Scope comp_scope.

(** ** Strings and paths *)

Definition chars (s : string) : list ascii := list_ascii_of_string s.
Definition of_chars (l : list ascii) : string := string_of_list_ascii l.

(** [s.includes(t)] *)
Fixpoint includes (s t : string) : bool :=
  String.prefix t s
  || match s with
     | EmptyString => false
     | String _ r => includes r t
     end.

(** The segments of a path: [p.split('/')]. *)
Fixpoint segments (p : string) : list string :=
  match p with
  | EmptyString => [EmptyString]
  | String c r =>
      if Ascii.eqb c "/"%char then EmptyString :: segments r
      else match segments r with
           | [] => [String c EmptyString]
           | seg :: segs => String c seg :: segs
           end
  end.

Definition join_segments (segs : list string) : string :=
  String.concat "/" segs.

(** [path.isAbsolute] of the POSIX flavour of Node's [path]. *)
Definition path_isAbsolute (p : string) : bool :=
  match p with
  | String c _ => Ascii.eqb c "/"%char
  | EmptyString => false
  end.

(** The segment pass of [path.normalize] ([normalizeString] in Node): empty
    and [.] segments vanish, [..] cancels the segment before it unless that one
    is itself [..] or there is none, in which case [..] is kept for a relative
    path and dropped for an absolute one.  [acc] is the output, reversed. *)
Fixpoint normalize_segments (allowAboveRoot : bool) (acc : list string)
    (segs : list string) : list string :=
  match segs with
  | [] => rev acc
  | seg :: rest =>
      if String.eqb seg "" || String.eqb seg "." then
        normalize_segments allowAboveRoot acc rest
      else if String.eqb seg ".." then
        match acc with
        | last :: acc' =>
            if String.eqb last ".." then
              normalize_segments allowAboveRoot (".." :: acc) rest
            else normalize_segments allowAboveRoot acc' rest
        | [] =>
            if allowAboveRoot then normalize_segments allowAboveRoot [".."] rest
            else normalize_segments allowAboveRoot [] rest
        end
      else normalize_segments allowAboveRoot (seg :: acc) rest
  end.

Definition ends_with_slash (p : string) : bool :=
  match rev (chars p) with
  | c :: _ => Ascii.eqb c "/"%char
  | [] => false
  end.

(** [path.normalize] (POSIX). *)
Definition path_normalize (p : string) : string :=
  if String.eqb p "" then "."
  else
    let isAbsolute := path_isAbsolute p in
    let trailingSeparator := ends_with_slash p in
    let body := join_segments (normalize_segments (negb isAbsolute) [] (segments p)) in
    if String.eqb body "" then
      if isAbsolute then "/" else if trailingSeparator then "./" else "."
    else
      let body := if trailingSeparator then body +:+ "/" else body in
      if isAbsolute then "/" +:+ body else body.

(** [path.join(dir, name)] for a directory in normal form and a single,
    non-empty segment: the two are joined by the separator. *)
Definition path_join (dir name : string) : string := dir +:+ "/" +:+ name.

Definition has_slash (p : string) : bool := includes p "/".

(** Directory part and last segment of a path (split at the last separator). *)
Fixpoint split_path (p : string) : string * string :=
  match p with
  | EmptyString => (EmptyString, EmptyString)
  | String c r =>
      if has_slash r then
        let (d, n) := split_path r in (String c d, n)
      else if Ascii.eqb c "/"%char then (EmptyString, r)
      else (EmptyString, String c r)
  end.

(** ** [Buffer.from(key).toString('base64')] *)

Definition base64_alphabet : list ascii :=
  chars "ABCDEFGHIJKLMNOPQRSTUVWXYZabcdefghijklmnopqrstuvwxyz0123456789+/".

Definition base64_char (sextet : Z) : ascii :=
  nth (Z.to_nat sextet) base64_alphabet "="%char.

Definition byte_val (c : ascii) : Z := Z.of_N (N_of_ascii c).

Fixpoint base64_encode (bytes : list ascii) : list ascii :=
  match bytes with
  | [] => []
  | [a] =>
      let a := byte_val a in
      [base64_char (a / 4); base64_char ((a mod 4) * 16); "="%char; "="%char]
  | [a; b] =>
      let a := byte_val a in
      let b := byte_val b in
      [base64_char (a / 4); base64_char ((a mod 4) * 16 + b / 16);
       base64_char ((b mod 16) * 4); "="%char]
  | a :: b :: c :: rest =>
      let a := byte_val a in
      let b := byte_val b in
      let c := byte_val c in
      base64_char (a / 4) :: base64_char ((a mod 4) * 16 + b / 16)
        :: base64_char ((b mod 16) * 4 + c / 64) :: base64_char (c mod 64)
        :: base64_encode rest
  end.

(** [.replace(/[/+=]/g, '_')] *)
Definition safe_char (c : ascii) : ascii :=
  if Ascii.eqb c "/"%char || Ascii.eqb c "+"%char || Ascii.eqb c "="%char
  then "_"%char else c.

Definition safeKey (key : string) : string :=
  of_chars (map safe_char (base64_encode (chars key))).

(** [CacheManager.getCacheFilePath], for the manager's [cacheDir]. *)
Definition getCacheFilePath (cacheDir key : string) : string :=
  path_join cacheDir (safeKey key +:+ ".json").

(** ** The file system, the clock and the module loader

    A file has contents and a last-access time; a directory maps names to
    files.  Any primitive can fail for reasons the program does not control
    (permissions, a full disk, a name that is too long): [w_fault] says which
    calls fail.  Reading a file stamps its access time (POSIX [atime]). *)

Record file : Type := { f_data : string; f_atime : Z }.

Definition f_size (f : file) : Z := Z.of_nat (String.length (f_data f)).

Inductive fs_op : Type :=
  | OpMkdir (p : string)
  | OpReaddir (p : string)
  | OpStat (p : string)
  | OpUnlink (p : string)
  | OpReadFile (p : string)
  | OpWriteFile (p : string).

(** Values of the language, as far as module exports and package descriptors
    need them. *)
Inductive jsvalue : Type :=
  | JsUndefined
  | JsNull
  | JsBool (b : bool)
  | JsNumber (n : Z)
  | JsString (s : string)
  | JsFunction (name : string) (props : list (string * jsvalue))
  | JsObject (props : list (string * jsvalue)).

Inductive event : Type :=
  | Resolved (request : string)
  | Loaded (path : string).

(** [CacheManager]'s fields ([logger] only writes diagnostics and is left
    out, as are the [logger.debug] calls). *)
Record CacheManager : Type := { cacheDir : string; ttl : Z; maxSize : Z }.

(** [AIResponseCache]'s field: a reference to a manager, whose fields are
    read-only, so that holding a copy is holding the object. *)
Record AIResponseCache : Type := { cache : CacheManager }.

Record World : Type := {
  w_dirs : gmap string (gmap string file);
  w_fault : fs_op -> bool;
  w_clock : Z;                                   (* Date.now() *)
  w_homedir : string;                            (* os.homedir() *)
  w_resolve : string -> option string;           (* require.resolve *)
  w_evaluate : string -> string -> result jsvalue; (* module at a path, from its bytes *)
  w_log : list event;                            (* calls made to the loader *)
  w_CacheManager_instance : option CacheManager; (* private static instance *)
  w_AIResponseCache_instance : option AIResponseCache (* private static instance *)
}.

Definition with_dirs (d : gmap string (gmap string file)) (w : World) : World :=
  {| w_dirs := d; w_fault := w_fault w; w_clock := w_clock w;
     w_homedir := w_homedir w; w_resolve := w_resolve w;
     w_evaluate := w_evaluate w; w_log := w_log w;
     w_CacheManager_instance := w_CacheManager_instance w;
     w_AIResponseCache_instance := w_AIResponseCache_instance w |}.

Definition with_clock (t : Z) (w : World) : World :=
  {| w_dirs := w_dirs w; w_fault := w_fault w; w_clock := t;
     w_homedir := w_homedir w; w_resolve := w_resolve w;
     w_evaluate := w_evaluate w; w_log := w_log w;
     w_CacheManager_instance := w_CacheManager_instance w;
     w_AIResponseCache_instance := w_AIResponseCache_instance w |}.

Definition with_log (l : list event) (w : World) : World :=
  {| w_dirs := w_dirs w; w_fault := w_fault w; w_clock := w_clock w;
     w_homedir := w_homedir w; w_resolve := w_resolve w;
     w_evaluate := w_evaluate w; w_log := l;
     w_CacheManager_instance := w_CacheManager_instance w;
     w_AIResponseCache_instance := w_AIResponseCache_instance w |}.

Definition with_CacheManager_instance (i : option CacheManager) (w : World) : World :=
  {| w_dirs := w_dirs w; w_fault := w_fault w; w_clock := w_clock w;
     w_homedir := w_homedir w; w_resolve := w_resolve w;
     w_evaluate := w_evaluate w; w_log := w_log w;
     w_CacheManager_instance := i;
     w_AIResponseCache_instance := w_AIResponseCache_instance w |}.

Definition with_AIResponseCache_instance (i : option AIResponseCache) (w : World) : World :=
  {| w_dirs := w_dirs w; w_fault := w_fault w; w_clock := w_clock w;
     w_homedir := w_homedir w; w_resolve := w_resolve w;
     w_evaluate := w_evaluate w; w_log := w_log w;
     w_CacheManager_instance := w_CacheManager_instance w;
     w_AIResponseCache_instance := i |}.

Definition lookup_file (p : string) (w : World) : option file :=
  let (d, n) := split_path p in
  match w_dirs w !! d with
  | Some entries => entries !! n
  | None => None
  end.

Definition Date_now : M World Z := gets w_clock.

Definition fs_guard (op : fs_op) : M World unit :=
  fun w => if w_fault w op then (Throw (RuntimeError "EIO"), w) else (Ok tt, w).

(** [fs.existsSync]: never throws. *)
Definition existsSync (p : string) : M World bool :=
  gets (fun w => match w_dirs w !! p with
                 | Some _ => true
                 | None => match lookup_file p w with
                           | Some _ => true
                           | None => false
                           end
                 end).

(** [fs.mkdirSync(p, { recursive: true })] *)
Definition mkdirSync (p : string) : M World unit :=
  fs_guard (OpMkdir p) ;;;
  modify (fun w => match w_dirs w !! p with
                   | Some _ => w
                   | None => with_dirs (<[p := ∅]> (w_dirs w)) w
                   end).

(** [fs.promises.readdir] *)
Definition readdir (p : string) : M World (list string) :=
  fs_guard (OpReaddir p) ;;;
  fun w => match w_dirs w !! p with
           | Some entries => (Ok (map fst (map_to_list entries)), w)
           | None => (Throw (RuntimeError "ENOENT"), w)
           end.

Record Stats : Type := { size : Z; atime : Z }.

(** [fs.promises.stat] *)
Definition stat (p : string) : M World Stats :=
  fs_guard (OpStat p) ;;;
  fun w => match lookup_file p w with
           | Some f => (Ok {| size := f_size f; atime := f_atime f |}, w)
           | None => (Throw (RuntimeError "ENOENT"), w)
           end.

Definition remove_file (p : string) (w : World) : World :=
  let (d, n) := split_path p in
  match w_dirs w !! d with
  | Some entries => with_dirs (<[d := delete n entries]> (w_dirs w)) w
  | None => w
  end.

Definition store_file (p : string) (f : file) (w : World) : World :=
  let (d, n) := split_path p in
  match w_dirs w !! d with
  | Some entries => with_dirs (<[d := <[n := f]> entries]> (w_dirs w)) w
  | None => w
  end.

(** [fs.promises.unlink] *)
Definition unlink (p : string) : M World unit :=
  fs_guard (OpUnlink p) ;;;
  fun w => match lookup_file p w with
           | Some _ => (Ok tt, remove_file p w)
           | None => (Throw (RuntimeError "ENOENT"), w)
           end.

(** [fs.promises.readFile(p, 'utf-8')] *)
Definition readFile (p : string) : M World string :=
  fs_guard (OpReadFile p) ;;;
  fun w => match lookup_file p w with
           | Some f =>
               (Ok (f_data f),
                store_file p {| f_data := f_data f; f_atime := w_clock w |} w)
           | None => (Throw (RuntimeError "ENOENT"), w)
           end.

(** [fs.promises.writeFile]: creates the file or replaces its contents; the
    directory must exist. *)
Definition writeFile (p data : string) : M World unit :=
  fs_guard (OpWriteFile p) ;;;
  fun w => let (d, n) := split_path p in
           match w_dirs w !! d with
           | Some entries =>
               let t := match entries !! n with
                        | Some old => f_atime old
                        | None => w_clock w
                        end in
               (Ok tt, store_file p {| f_data := data; f_atime := t |} w)
           | None => (Throw (RuntimeError "ENOENT"), w)
           end.

(** [await Promise.all(xs.map(f))] for an [f] that only reads: the results in
    order, or the first failure. *)
Fixpoint mapM {S A B} (f : A -> M S B) (l : list A) : M S (list B) :=
  match l with
  | [] => ret []
  | x :: r => y <- f x ;; ys <- mapM f r ;; ret (y :: ys)
  end.

(** [await Promise.all(xs.map(f))] for an [f] with effects: [map] starts every
    call, so every effect takes place; the promise rejects with the first
    failure. *)
Fixpoint forall_settled {S A} (f : A -> M S unit) (l : list A) : M S unit :=
  match l with
  | [] => ret tt
  | x :: r =>
      fun s => match f x s with
               | (Ok _, s') => forall_settled f r s'
               | (Throw e, s') =>
                   let (_, s'') := forall_settled f r s' in (Throw e, s'')
               end
  end.

(** [Array.prototype.sort] with the comparator [(a, b) => key(a) - key(b)]:
    ascending and stable. *)
Fixpoint insert_by {A} (key : A -> Z) (x : A) (l : list A) : list A :=
  match l with
  | [] => [x]
  | y :: r => if (key x <=? key y)%Z then x :: l else y :: insert_by key x r
  end.

Fixpoint sort_by {A} (key : A -> Z) (l : list A) : list A :=
  match l with
  | [] => []
  | x :: r => insert_by key x (sort_by key r)
  end.

(** ** [CacheManager.ts] *)

Record CacheOptions : Type := {
  opt_cacheDir : option string;
  opt_ttl : option Z;
  opt_maxSize : option Z
}.

(** [x || d] on an optional string, resp. number: [undefined], the empty
    string and [0] are falsy. *)
Definition or_string (x : option string) (d : string) : string :=
  match x with
  | Some EmptyString | None => d
  | Some s => s
  end.

Definition or_number (x : option Z) (d : Z) : Z :=
  match x with
  | Some 0 | None => d
  | Some n => n
  end.

(** The record [set] writes: [{ timestamp, value }]. *)
Record CacheEntry (V : Type) : Type := { timestamp : Z; value : V }.
Arguments timestamp {V} _.
Arguments value {V} _.

(** The runtime's JSON for entries holding a [V]: [JSON.stringify(data, null, 2)]
    may throw ([None]); [JSON.parse] throws on text that is not JSON, and text
    that does not denote an entry makes the field access of [get] fail: both
    are [None]. *)
Class Json (V : Type) : Type := {
  JSON_stringify : CacheEntry V -> option string;
  JSON_parse : string -> option (CacheEntry V)
}.

Definition DAY_MS : Z := 24 * 60 * 60 * 1000.

Definition option_bind {A B} (o : option A) (f : A -> option B) : option B :=
  match o with Some a => f a | None => None end.

(** [private initializeCache()] *)
Definition initializeCache (self : CacheManager) : M World unit :=
  try_catch
    (dirExists <- existsSync (cacheDir self) ;;
     if negb dirExists then mkdirSync (cacheDir self) else ret tt)
    (fun error =>
       throw (StudylibError "Failed to initialize cache directory" CONFIG_ERROR)).

(** [private constructor(options?: CacheOptions)] *)
Definition CacheManager_new (options : option CacheOptions) : M World CacheManager :=
  home <- gets w_homedir ;;
  let self :=
    {| cacheDir := or_string (option_bind options opt_cacheDir)
                     (path_join (path_join home ".studylib") "cache");
       ttl := or_number (option_bind options opt_ttl) DAY_MS;
       maxSize := or_number (option_bind options opt_maxSize) (100 * 1024 * 1024) |} in
  initializeCache self ;;;
  ret self.

(** [static getInstance(options?: CacheOptions)] *)
Definition CacheManager_getInstance (options : option CacheOptions)
  : M World CacheManager :=
  inst <- gets w_CacheManager_instance ;;
  match inst with
  | Some i => ret i
  | None =>
      i <- CacheManager_new options ;;
      modify (with_CacheManager_instance (Some i)) ;;;
      ret i
  end.

(** [async delete(key)] *)
Definition CacheManager_delete (self : CacheManager) (key : string) : M World unit :=
  try_catch
    (let filePath := getCacheFilePath (cacheDir self) key in
     present <- existsSync filePath ;;
     if present then unlink filePath else ret tt)
    (fun error => ret tt).

(** [async clear()] *)
Definition CacheManager_clear (self : CacheManager) : M World unit :=
  try_catch
    (files <- readdir (cacheDir self) ;;
     forall_settled (fun file => unlink (path_join (cacheDir self) file)) files)
    (fun error => throw (StudylibError "Failed to clear cache" CONFIG_ERROR)).

(** [private async getCacheSize()] *)
Definition getCacheSize (self : CacheManager) : M World Z :=
  try_catch
    (files <- readdir (cacheDir self) ;;
     sizes <- mapM (fun file =>
                      stats <- stat (path_join (cacheDir self) file) ;;
                      ret (size stats)) files ;;
     ret (fold_left Z.add sizes 0))
    (fun error => ret 0).

(** The [for ... of fileStats] loop of [ensureCacheSpace]; [sz] is its local
    [size]. *)
Fixpoint evict_until (self : CacheManager) (sz : Z)
    (fileStats : list (string * Stats)) : M World unit :=
  match fileStats with
  | [] => ret tt
  | (file, stats) :: rest =>
      if (sz <=? maxSize self)%Z then ret tt
      else
        unlink (path_join (cacheDir self) file) ;;;
        evict_until self (sz - size stats) rest
  end.

(** [private async ensureCacheSpace()] *)
Definition ensureCacheSpace (self : CacheManager) : M World unit :=
  currentSize <- getCacheSize self ;;
  if (currentSize >? maxSize self)%Z then
    try_catch
      (files <- readdir (cacheDir self) ;;
       fileStats <- mapM (fun file =>
                            stats <- stat (path_join (cacheDir self) file) ;;
                            ret (file, stats)) files ;;
       let fileStats := sort_by (fun fs => atime (snd fs)) fileStats in
       evict_until self currentSize fileStats)
      (fun error => ret tt)
  else ret tt.

Section CacheManagerValues.
Context {V : Type} `{Json V}.

Definition parse_entry {S} (data : string) : M S (CacheEntry V) :=
  match JSON_parse data with
  | Some cached => ret cached
  | None => throw (RuntimeError "SyntaxError")
  end.

Definition stringify_entry {S} (data : CacheEntry V) : M S string :=
  match JSON_stringify data with
  | Some text => ret text
  | None => throw (RuntimeError "TypeError")
  end.

(** [async get<T>(key)]; [null] is [None]. *)
Definition CacheManager_get (self : CacheManager) (key : string)
  : M World (option V) :=
  try_catch
    (let filePath := getCacheFilePath (cacheDir self) key in
     present <- existsSync filePath ;;
     if negb present then ret None
     else
       data <- readFile filePath ;;
       cached <- parse_entry data ;;
       now <- Date_now ;;
       if (now - timestamp cached >? ttl self)%Z then
         CacheManager_delete self key ;;;
         ret None
       else ret (Some (value cached)))
    (fun error => ret None).

(** [async set<T>(key, value)] *)
Definition CacheManager_set (self : CacheManager) (key : string) (v : V)
  : M World unit :=
  try_catch
    (ensureCacheSpace self ;;;
     let filePath := getCacheFilePath (cacheDir self) key in
     now <- Date_now ;;
     let data := {| timestamp := now; value := v |} in
     text <- stringify_entry data ;;
     writeFile filePath text)
    (fun error => ret tt).
End CacheManagerValues.

(** ** [AIResponseCache.ts] *)

(** [crypto.createHash('sha256').update(data).digest('hex')] *)
Class Sha256 : Type := sha256_hex : string -> string.

Definition ai_cache_options (home : string) : CacheOptions :=
  {| opt_cacheDir := Some (path_join (path_join home ".studylib") "ai-cache");
     opt_ttl := Some (30 * 24 * 60 * 60 * 1000);
     opt_maxSize := Some (500 * 1024 * 1024) |}.

(** [private constructor()] *)
Definition AIResponseCache_new : M World AIResponseCache :=
  home <- gets w_homedir ;;
  c <- CacheManager_getInstance (Some (ai_cache_options home)) ;;
  ret {| cache := c |}.

(** [static getInstance()] *)
Definition AIResponseCache_getInstance : M World AIResponseCache :=
  inst <- gets w_AIResponseCache_instance ;;
  match inst with
  | Some i => ret i
  | None =>
      i <- AIResponseCache_new ;;
      modify (with_AIResponseCache_instance (Some i)) ;;;
      ret i
  end.

(** The template literal's rendering of an integer [itemsPerPage]. *)
Definition string_of_number (n : Z) : string :=
  NilZero.string_of_int (Z.to_int n).

(** [private generateCacheKey(libraryName, libraryVersion, aiTool, itemsPerPage)] *)
Definition cacheKeyData (libraryName libraryVersion aiTool : string)
    (itemsPerPage : Z) : string :=
  libraryName +:+ ":" +:+ libraryVersion +:+ ":" +:+ aiTool +:+ ":"
    +:+ string_of_number itemsPerPage.

Definition generateCacheKey `{Sha256} (libraryName libraryVersion aiTool : string)
    (itemsPerPage : Z) : string :=
  sha256_hex (cacheKeyData libraryName libraryVersion aiTool itemsPerPage).

(** ** [RequireLibraryContext.ts] *)

(** [interface LibraryCache]; [packageInfo] is [JsNull] when absent. *)
Record LibraryCache : Type := {
  exports : jsvalue;
  packageInfo : jsvalue;
  lastAccessed : Z;
  hasDefaultExport : bool;
  fileHash : string
}.

Definition touch (now : Z) (c : LibraryCache) : LibraryCache :=
  {| exports := exports c; packageInfo := packageInfo c; lastAccessed := now;
     hasDefaultExport := hasDefaultExport c; fileHash := fileHash c |}.

(** What the resolver keeps in its persistent store: library entries under
    [name:hash], package descriptors under [name:package:hash].  The two
    [get<T>] calls of the resolver are typed reads: an entry of the other shape
    under a key counts as absent. *)
Inductive payload : Type :=
  | PLibrary (entry : LibraryCache)
  | PPackage (info : jsvalue).

(** A [Map<string, T>]: keys are unique and keep their insertion order. *)
Section JsMap.
Context {T : Type}.

Fixpoint Map_get (k : string) (m : list (string * T)) : option T :=
  match m with
  | [] => None
  | (k', v) :: r => if String.eqb k k' then Some v else Map_get k r
  end.

Fixpoint Map_set (k : string) (v : T) (m : list (string * T)) : list (string * T) :=
  match m with
  | [] => [(k, v)]
  | (k', v') :: r =>
      if String.eqb k k' then (k, v) :: r else (k', v') :: Map_set k v r
  end.

Fixpoint Map_delete (k : string) (m : list (string * T)) : list (string * T) :=
  match m with
  | [] => []
  | (k', v') :: r =>
      if String.eqb k k' then r else (k', v') :: Map_delete k r
  end.

Definition Map_size (m : list (string * T)) : Z := Z.of_nat (length m).
End JsMap.

Record RequireLibraryContext : Type := {
  memoryCache : list (string * LibraryCache);
  fileCache : CacheManager
}.

Definition memoryCacheTimeout : Z := 5 * 60 * 1000.
Definition maxMemoryCacheSize : Z := 50.

(** The resolver object together with everything else it can touch. *)
Record Heap : Type := { this : RequireLibraryContext; world : World }.

Definition in_world {A} (m : M World A) : M Heap A :=
  zoom world (fun w h => {| this := this h; world := w |}) m.

Definition set_memoryCache (m : list (string * LibraryCache)) : M Heap unit :=
  modify (fun h => {| this := {| memoryCache := m; fileCache := fileCache (this h) |};
                      world := world h |}).

Definition library_cache_options (home : string) : CacheOptions :=
  {| opt_cacheDir := Some (path_join (path_join home ".studylib") "library-cache");
     opt_ttl := Some (7 * 24 * 60 * 60 * 1000);
     opt_maxSize := None |}.

(** [constructor()] *)
Definition RequireLibraryContext_new : M World RequireLibraryContext :=
  home <- gets w_homedir ;;
  fc <- CacheManager_getInstance (Some (library_cache_options home)) ;;
  ret {| memoryCache := []; fileCache := fc |}.

(** The first loop of [cleanMemoryCache], over the entries present when it
    starts. *)
Definition drop_expired (now : Z) (m : list (string * LibraryCache))
  : list (string * LibraryCache) :=
  fold_left (fun acc kv =>
               if (now - lastAccessed (snd kv) >? memoryCacheTimeout)%Z
               then Map_delete (fst kv) acc else acc)
            m m.

(** Its [while] loop: [entries.shift()!] on an exhausted array yields
    [undefined], whose destructuring throws. *)
Fixpoint drop_oldest (entries m : list (string * LibraryCache))
  : result (list (string * LibraryCache)) :=
  if (Map_size m >? maxMemoryCacheSize)%Z then
    match entries with
    | [] => Throw (RuntimeError "TypeError")
    | (key, _) :: rest => drop_oldest rest (Map_delete key m)
    end
  else Ok m.

(** [private cleanMemoryCache()] *)
Definition cleanMemoryCache : M Heap unit :=
  now <- in_world Date_now ;;
  m <- gets (fun h => memoryCache (this h)) ;;
  let m := drop_expired now m in
  set_memoryCache m ;;;
  if (Map_size m >? maxMemoryCacheSize)%Z then
    let entries := sort_by (fun kv => lastAccessed (snd kv)) m in
    match drop_oldest entries m with
    | Ok m' => set_memoryCache m'
    | Throw e => throw e
    end
  else ret tt.

(** [private getFromMemoryCache(libraryName)] *)
Definition getFromMemoryCache (libraryName : string) : M Heap (option LibraryCache) :=
  m <- gets (fun h => memoryCache (this h)) ;;
  match Map_get libraryName m with
  | Some cached =>
      now <- in_world Date_now ;;
      let cached := touch now cached in
      set_memoryCache (Map_set libraryName cached m) ;;;
      ret (Some cached)
  | None => ret None
  end.

(** [private setInMemoryCache(libraryName, cache)] *)
Definition setInMemoryCache (libraryName : string) (c : LibraryCache) : M Heap unit :=
  cleanMemoryCache ;;;
  m <- gets (fun h => memoryCache (this h)) ;;
  set_memoryCache (Map_set libraryName c m).

(** [private validateLibraryName(libraryName)], on a string. *)
Definition validateLibraryName {S} (libraryName : string) : M S unit :=
  if String.eqb libraryName "" then
    throw (StudylibError "Library name must be a non-empty string" VALIDATION_ERROR)
  else
    let normalizedPath := path_normalize libraryName in
    if includes normalizedPath ".." || path_isAbsolute normalizedPath then
      throw (StudylibError
               "Invalid library name: must not contain path traversal or absolute paths"
               VALIDATION_ERROR)
    else ret tt.

Definition truthy (v : jsvalue) : bool :=
  match v with
  | JsUndefined | JsNull => false
  | JsBool b => b
  | JsNumber n => negb (n =? 0)%Z
  | JsString s => negb (String.eqb s "")
  | JsFunction _ _ | JsObject _ => true
  end.

Definition own_props (v : jsvalue) : list (string * jsvalue) :=
  match v with
  | JsFunction _ props | JsObject props => props
  | _ => []
  end.

(** [private isValidPackageInfo(packageInfo)] *)
Definition isValidPackageInfo (packageInfo : jsvalue) : bool :=
  match packageInfo with
  | JsObject props =>
      match Map_get "name" props, Map_get "version" props with
      | Some (JsString _), Some (JsString _) => true
      | _, _ => false
      end
  | _ => false
  end.

(** [private checkDefaultExport(library)] *)
Definition checkDefaultExport (library : jsvalue) : bool :=
  match library with
  | JsFunction _ _ => true
  | JsObject props =>
      match Map_get "__esModule" props with
      | Some (JsBool true) =>
          match Map_get "default" props with Some _ => true | None => false end
      | _ => false
      end
  | _ => false
  end.

(** [{ default: library, ...library }] *)
Definition with_default (library : jsvalue) : jsvalue :=
  JsObject (fold_left (fun acc kv => Map_set (fst kv) (snd kv) acc)
                      (own_props library) [("default", library)]).

Definition quoted (s : string) : string :=
  let q := String (Ascii.ascii_of_nat 34) EmptyString in q +:+ s +:+ q.

(** [require.resolve(request)] *)
Definition require_resolve (request : string) : M World string :=
  modify (fun w => with_log (w_log w ++ [Resolved request]) w) ;;;
  fun w => match w_resolve w request with
           | Some p => (Ok p, w)
           | None => (Throw (RuntimeError "MODULE_NOT_FOUND"), w)
           end.

(** [require(path)]: evaluates the module from the file's bytes (the loader's
    own registry of modules already loaded is not modelled). *)
Definition require_load (p : string) : M World jsvalue :=
  modify (fun w => with_log (w_log w ++ [Loaded p]) w) ;;;
  fun w => match lookup_file p w with
           | Some f => (w_evaluate w p (f_data f), w)
           | None => (Throw (RuntimeError "MODULE_NOT_FOUND"), w)
           end.

Section Resolver.
Context `{Json payload} `{Sha256}.

(** [private async getFileHash(filePath)] *)
Definition getFileHash (filePath : string) : M World string :=
  data <- readFile filePath ;;
  ret (sha256_hex data).

Definition rethrow_or {A} (fallback : M Heap A) (error : exn) : M Heap A :=
  if is_StudylibError error then throw error else fallback.

(** [public async getPackageInfo(libraryName)]; [null] is [JsNull]. *)
Definition getPackageInfo (libraryName : string) : M Heap jsvalue :=
  validateLibraryName libraryName ;;;
  memCached <- getFromMemoryCache libraryName ;;
  let resolveAndLoad : M Heap jsvalue :=
    try_catch
      (packagePath <- in_world (require_resolve (libraryName +:+ "/package.json")) ;;
       fileHash <- in_world (getFileHash packagePath) ;;
       let cacheKey := libraryName +:+ ":package:" +:+ fileHash in
       fc <- gets (fun h => fileCache (this h)) ;;
       fileCached <- in_world (CacheManager_get fc cacheKey) ;;
       let loadAndValidate : M Heap jsvalue :=
         info <- in_world (require_load packagePath) ;;
         if negb (isValidPackageInfo info) then
           throw (StudylibError
                    ("Invalid package.json for " +:+ quoted libraryName)
                    VALIDATION_ERROR)
         else
           in_world (CacheManager_set fc cacheKey (PPackage info)) ;;;
           ret info in
       match fileCached with
       | Some (PPackage info) => if truthy info then ret info else loadAndValidate
       | _ => loadAndValidate
       end)
      (rethrow_or (ret JsNull)) in
  match memCached with
  | Some c => if truthy (packageInfo c) then ret (packageInfo c) else resolveAndLoad
  | None => resolveAndLoad
  end.

(** [public async context(libraryName)] *)
Definition context (libraryName : string) : M Heap jsvalue :=
  validateLibraryName libraryName ;;;
  memCached <- getFromMemoryCache libraryName ;;
  let resolveAndLoad : M Heap jsvalue :=
    try_catch
      (libraryPath <- in_world (require_resolve libraryName) ;;
       present <- in_world (existsSync libraryPath) ;;
       if negb present then
         throw (StudylibError
                  ("Library " +:+ quoted libraryName +:+ " not found at path: "
                     +:+ libraryPath)
                  LIBRARY_NOT_FOUND)
       else
         fileHash <- in_world (getFileHash libraryPath) ;;
         let cacheKey := libraryName +:+ ":" +:+ fileHash in
         fc <- gets (fun h => fileCache (this h)) ;;
         fileCached <- in_world (CacheManager_get fc cacheKey) ;;
         match fileCached with
         | Some (PLibrary cached) =>
             setInMemoryCache libraryName cached ;;;
             ret (exports cached)
         | _ =>
             library <- in_world (require_load libraryPath) ;;
             let hasDefault := checkDefaultExport library in
             let exported := if hasDefault then with_default library else library in
             info <- getPackageInfo libraryName ;;
             now <- in_world Date_now ;;
             let cacheEntry :=
               {| exports := exported; packageInfo := info; lastAccessed := now;
                  hasDefaultExport := hasDefault; fileHash := fileHash |} in
             in_world (CacheManager_set fc cacheKey (PLibrary cacheEntry)) ;;;
             setInMemoryCache libraryName cacheEntry ;;;
             ret exported
         end)
      (rethrow_or
         (throw (StudylibError ("Failed to load library " +:+ quoted libraryName)
                   LIBRARY_NOT_FOUND))) in
  match memCached with
  | Some c => if truthy (exports c) then ret (exports c) else resolveAndLoad
  | None => resolveAndLoad
  end.
End Resolver.

(** ** Vocabulary of the properties *)

(** The characters [base64_encode] can produce. *)
Definition base64_output_char (c : ascii) : Prop :=
  c ∈ base64_alphabet \/ c = "="%char.

(** Keys whose base64 text has neither of the two characters that the
    replacement merges with the padding. *)
Definition plain_base64 (key : string) : bool :=
  forallb (fun c => negb (Ascii.eqb c "+"%char || Ascii.eqb c "/"%char))
          (base64_encode (chars key)).

(** ASCII characters other than [>], [?], [~] and DEL. *)
Definition key_char_ok (c : ascii) : Prop :=
  byte_val c < 128 /\ (byte_val c) mod 64 < 62.

(** A machine on which every file-system call goes through. *)
Definition fault_free (w : World) : Prop := forall op, w_fault w op = false.

(** Two worlds that differ at most in the contents of the file system. *)
Definition same_machine (w w' : World) : Prop :=
  w_fault w' = w_fault w /\ w_clock w' = w_clock w /\ w_homedir w' = w_homedir w
  /\ w_resolve w' = w_resolve w /\ w_evaluate w' = w_evaluate w
  /\ w_log w' = w_log w
  /\ w_CacheManager_instance w' = w_CacheManager_instance w
  /\ w_AIResponseCache_instance w' = w_AIResponseCache_instance w.

(** A later world of the same machine: directories are never removed. *)
Definition evolves (w w' : World) : Prop :=
  same_machine w w'
  /\ forall d, is_Some (w_dirs w !! d) -> is_Some (w_dirs w' !! d).

(** [path.join(os.homedir(), '.studylib', 'cache')] *)
Definition default_cacheDir (home : string) : string :=
  path_join (path_join home ".studylib") "cache".

(** What the constructor stores for given options. *)
Definition configured (home : string) (options : option CacheOptions) : CacheManager :=
  {| cacheDir := or_string (option_bind options opt_cacheDir) (default_cacheDir home);
     ttl := or_number (option_bind options opt_ttl) DAY_MS;
     maxSize := or_number (option_bind options opt_maxSize) (100 * 1024 * 1024) |}.

(** The error of the second check of [validateLibraryName]. *)
Definition invalid_name_error : exn :=
  StudylibError
    "Invalid library name: must not contain path traversal or absolute paths"
    VALIDATION_ERROR.

(** Two argument tuples that differ in exactly one of the four components. *)
Definition one_component_changed
    (n v t : string) (i : Z) (n' v' t' : string) (i' : Z) : Prop :=
  (n <> n' /\ v = v' /\ t = t' /\ i = i')
  \/ (n = n' /\ v <> v' /\ t = t' /\ i = i')
  \/ (n = n' /\ v = v' /\ t <> t' /\ i = i')
  \/ (n = n' /\ v = v' /\ t = t' /\ i <> i').

(** An entry last accessed at or after [t0] is inside the freshness window at
    time [now], when [now] is at most one window after [t0]. *)
Definition fresh_at (t0 : Z) (now : Z) (c : LibraryCache) : Prop :=
  t0 <= lastAccessed c /\ now <= t0 + memoryCacheTimeout.

(** Ascending by a key. *)
Definition ascending {A : Type} (key : A -> Z) (l : list A) : Prop :=
  StronglySorted (fun x y => key x <= key y) l.

(** ** Concrete worlds, used to run the code on examples *)

(** What a computation returns or throws from a state, and the state it
    leaves. *)
Definition outcome {S A} (m : M S A) (s : S) : result A := fst (m s).
Definition after {S A} (m : M S A) (s : S) : S := snd (m s).

Definition no_faults : fs_op -> bool := fun _ => false.

(** A machine on which nothing has run yet: no cache directory, no singleton. *)
Definition fresh_world : World :=
  {| w_dirs := ∅;
     w_fault := no_faults;
     w_clock := 1700000000000;
     w_homedir := "/home/u";
     w_resolve := fun _ => None;
     w_evaluate := fun _ _ => Throw (RuntimeError "SyntaxError");
     w_log := [];
     w_CacheManager_instance := None;
     w_AIResponseCache_instance := None |}.

(** A codec for entries whose value is a line of text: the timestamp in
    decimal, a semicolon, the text. *)
Fixpoint split_semicolon (s : string) : option (string * string) :=
  match s with
  | EmptyString => None
  | String c r =>
      if Ascii.eqb c ";"%char then Some (EmptyString, r)
      else match split_semicolon r with
           | Some (a, b) => Some (String c a, b)
           | None => None
           end
  end.

Definition line_codec : Json string :=
  {| JSON_stringify := fun e => Some (string_of_number (timestamp e) +:+ ";" +:+ value e);
     JSON_parse := fun text =>
       match split_semicolon text with
       | Some (a, b) =>
           match NilZero.int_of_string a with
           | Some d => Some {| timestamp := Z.of_int d; value := b |}
           | None => None
           end
       | None => None
       end |}.

(** Resolver entries that [JSON.stringify] rejects (exports are routinely
    cyclic): nothing can be written to, or read back from, the persistent
    store. *)
Definition unserializable : Json payload :=
  {| JSON_stringify := fun _ => None; JSON_parse := fun _ => None |}.

(** A stand-in for the digest that is injective: the data itself. *)
Definition verbatim_digest : Sha256 := fun data => data.

(** The default store of [/home/u], holding one entry for the key [foo]. *)
Definition default_store : CacheManager :=
  {| cacheDir := "/home/u/.studylib/cache"; ttl := DAY_MS; maxSize := 100 * 1024 * 1024 |}.

Definition foo_file : file :=
  {| f_data := "1700000000000;bar"; f_atime := 1700000000000 |}.

(** The machine right after the default store has been constructed. *)
Definition world_with_cache : World :=
  with_dirs {[ "/home/u/.studylib/cache" := ∅ ]} fresh_world.

Definition world_with_foo : World :=
  with_dirs {[ "/home/u/.studylib/cache" := {[ "Zm9v.json" := foo_file ]} ]} fresh_world.

(** The same machine, on which files can no longer be removed. *)
Definition readonly_world : World :=
  {| w_dirs := w_dirs world_with_foo;
     w_fault := fun op => match op with OpUnlink _ => true | _ => false end;
     w_clock := w_clock world_with_foo;
     w_homedir := w_homedir world_with_foo;
     w_resolve := w_resolve world_with_foo;
     w_evaluate := w_evaluate world_with_foo;
     w_log := w_log world_with_foo;
     w_CacheManager_instance := None;
     w_AIResponseCache_instance := None |}.

(** A resolver that has just been constructed on the fresh machine. *)
Definition fresh_heap : Heap :=
  {| this := {| memoryCache := []; fileCache := default_store |};
     world := fresh_world |}.

(** Insertions into the in-memory tier at given times: the clock reads [now]
    when [setInMemoryCache] runs. *)
Definition insert_at (now : Z) (name : string) (c : LibraryCache) : M Heap unit :=
  in_world (modify (with_clock now)) ;;;
  setInMemoryCache name c.

Fixpoint insert_all (items : list (Z * (string * LibraryCache))) : M Heap unit :=
  match items with
  | [] => ret tt
  | (now, (name, c)) :: rest => insert_at now name c ;;; insert_all rest
  end.

Definition library_entry (t : Z) : LibraryCache :=
  {| exports := JsObject []; packageInfo := JsNull; lastAccessed := t;
     hasDefaultExport := false; fileHash := "" |}.

(** [count] libraries [lib0], [lib1], ..., one every millisecond. *)
Definition libraries (count : nat) : list (Z * (string * LibraryCache)) :=
  map (fun i => let t := 1700000000000 + Z.of_nat i in
                (t, ("lib" +:+ string_of_number (Z.of_nat i), library_entry t)))
      (seq 0 count).

(** A caller that asks for entries without any grace: [ttl: 0]. *)
Definition zero_ttl_options : CacheOptions :=
  {| opt_cacheDir := None; opt_ttl := Some 0; opt_maxSize := None |}.

(** ** Vocabulary for the size bound *)

Definition stats_of (f : file) : Stats := {| size := f_size f; atime := f_atime f |}.

(** What [readdir] followed by [stat] reports for a directory. *)
Definition listing (entries : gmap string file) : list (string * Stats) :=
  map (fun kv => (fst kv, stats_of (snd kv))) (map_to_list entries).

Definition listing_size (l : list (string * Stats)) : Z :=
  fold_right (fun fs acc => size (snd fs) + acc) 0 l.

(** Total bytes occupied by a directory. *)
Definition dir_size (entries : gmap string file) : Z := listing_size (listing entries).

(** File names never contain the separator. *)
Definition names_ok (entries : gmap string file) : Prop :=
  forall name, is_Some (entries !! name) -> has_slash name = false.

(** A small store, filled to its limit: 100 entries of 10 bytes each under a
    limit of 1000 bytes. *)
Definition small_store : CacheManager :=
  {| cacheDir := "/home/u/.studylib/cache"; ttl := DAY_MS; maxSize := 1000 |}.

Definition ten_byte_files : gmap string file :=
  list_to_map
    (map (fun i => ("e" +:+ string_of_number (Z.of_nat i) +:+ ".json",
                    {| f_data := "0123456789"; f_atime := 1600000000000 + Z.of_nat i |}))
         (seq 0 100)).

Definition full_world : World :=
  with_dirs {[ "/home/u/.studylib/cache" := ten_byte_files ]} fresh_world.

(** A project in which [lodash] is installed; its entry point holds [bytes],
    and evaluating a module yields an object that records the bytes it was
    evaluated from. *)
Definition lodash_path : string := "/app/node_modules/lodash/index.js".

Definition module_of (bytes : string) : jsvalue :=
  JsObject [("VERSION", JsString bytes)].

Definition lodash_dirs (bytes : string) : gmap string (gmap string file) :=
  {[ "/app/node_modules/lodash" :=
       {[ "index.js" := {| f_data := bytes; f_atime := 1600000000000 |} ]} ]}.

Definition lodash_world (bytes : string) : World :=
  {| w_dirs := lodash_dirs bytes;
     w_fault := no_faults;
     w_clock := 1700000000000;
     w_homedir := "/home/u";
     w_resolve := fun request =>
       if String.eqb request "lodash" then Some lodash_path else None;
     w_evaluate := fun _ bytes => Ok (module_of bytes);
     w_log := [];
     w_CacheManager_instance := None;
     w_AIResponseCache_instance := None |}.

Definition new_resolver : RequireLibraryContext :=
  {| memoryCache := []; fileCache := default_store |}.

(** The entry point is overwritten with [bytes], [elapsed] milliseconds pass. *)
Definition file_changes (bytes : string) (elapsed : Z) (h : Heap) : Heap :=
  {| this := this h;
     world := with_clock (w_clock (world h) + elapsed)
                (with_dirs (lodash_dirs bytes) (world h)) |}.

(** Names that [validateLibraryName] lets through. *)
Definition valid_name (name : string) : bool :=
  negb (String.eqb name "")
  && negb (includes (path_normalize name) ".." || path_isAbsolute (path_normalize name)).

(** * Properties *)

(** ** Strings *)

Lemma chars_app (s t : string) : chars (s +:+ t) = chars s ++ chars t.
Proof. induction s as [|c s IH]; simpl; [reflexivity | now rewrite <- IH]. Qed.

Lemma chars_inj (s t : string) : chars s = chars t -> s = t.
Proof.
  intros E. rewrite <- (string_of_list_ascii_of_string s).
  rewrite <- (string_of_list_ascii_of_string t). unfold chars in E. now rewrite E.
Qed.

Lemma chars_of_chars (l : list ascii) : chars (of_chars l) = l.
Proof. apply list_ascii_of_string_of_list_ascii. Qed.

Lemma append_inv_head (s t t' : string) : s +:+ t = s +:+ t' -> t = t'.
Proof.
  intros E. apply chars_inj. apply (f_equal chars) in E.
  rewrite !chars_app in E. now apply app_inv_head in E.
Qed.

Lemma append_inv_tail (s s' t : string) : s +:+ t = s' +:+ t -> s = s'.
Proof.
  intros E. apply chars_inj. apply (f_equal chars) in E.
  rewrite !chars_app in E. now apply app_inv_tail in E.
Qed.

(** ** The cache file name *)

Lemma byte_val_range (c : ascii) : 0 <= byte_val c < 256.
Proof.
  unfold byte_val. pose proof (N_ascii_bounded c). lia.
Qed.

Lemma byte_val_inj (c d : ascii) : byte_val c = byte_val d -> c = d.
Proof.
  unfold byte_val. intros E. apply N2Z.inj in E.
  rewrite <- (ascii_N_embedding c), <- (ascii_N_embedding d). now rewrite E.
Qed.

Lemma base64_alphabet_NoDup : NoDup base64_alphabet.
Proof. apply (bool_decide_unpack (NoDup base64_alphabet)). vm_compute. exact I. Qed.

Lemma base64_alphabet_length : length base64_alphabet = 64%nat.
Proof. reflexivity. Qed.

Lemma base64_char_lookup (n : Z) :
  0 <= n < 64 -> base64_alphabet !! Z.to_nat n = Some (base64_char n).
Proof.
  intros Hn. unfold base64_char.
  destruct (base64_alphabet !! Z.to_nat n) as [c|] eqn:E.
  - f_equal. symmetry. apply nth_lookup_Some with (d := "="%char) in E. exact E.
  - apply lookup_ge_None in E. rewrite base64_alphabet_length in E. lia.
Qed.

Lemma base64_char_inj (m n : Z) :
  0 <= m < 64 -> 0 <= n < 64 -> base64_char m = base64_char n -> m = n.
Proof.
  intros Hm Hn E.
  pose proof (base64_char_lookup m Hm) as Lm.
  pose proof (base64_char_lookup n Hn) as Ln.
  rewrite E in Lm.
  pose proof (NoDup_lookup _ _ _ _ base64_alphabet_NoDup Lm Ln). lia.
Qed.

Lemma base64_char_in (n : Z) : 0 <= n < 64 -> base64_char n ∈ base64_alphabet.
Proof.
  intros Hn. apply list_elem_of_lookup. eexists. now apply base64_char_lookup.
Qed.

Lemma base64_char_not_pad (n : Z) : 0 <= n < 64 -> base64_char n <> "="%char.
Proof.
  intros Hn E. pose proof (base64_char_in n Hn) as Hin. rewrite E in Hin.
  revert Hin. apply (bool_decide_eq_false ("="%char ∈ base64_alphabet)). vm_compute. reflexivity.
Qed.

Ltac sextet_bounds :=
  repeat match goal with
         | c : ascii |- _ =>
             lazymatch goal with
             | _ : 0 <= byte_val c < 256 |- _ => fail
             | _ => pose proof (byte_val_range c)
             end
         end;
  Z.div_mod_to_equations; lia.

Lemma base64_encode_chars (bytes : list ascii) :
  Forall base64_output_char (base64_encode bytes).
Proof.
  induction bytes as [bytes IH] using (induction_ltof1 _ (@length ascii)).
  unfold ltof in IH.
  destruct bytes as [|a [|b [|c rest]]]; simpl.
  - constructor.
  - repeat (constructor;
            [ first [ now right | left; apply base64_char_in; sextet_bounds ] | ]).
    constructor.
  - repeat (constructor;
            [ first [ now right | left; apply base64_char_in; sextet_bounds ] | ]).
    constructor.
  - do 4 (constructor; [ left; apply base64_char_in; sextet_bounds | ]).
    apply IH. simpl. lia.
Qed.

Lemma base64_encode_inj (l1 l2 : list ascii) :
  base64_encode l1 = base64_encode l2 -> l1 = l2.
Proof.
  revert l2.
  induction l1 as [l1 IH] using (induction_ltof1 _ (@length ascii)).
  unfold ltof in IH. intros l2 E.
  destruct l1 as [|a [|b [|c r1]]]; destruct l2 as [|a' [|b' [|c' r2]]];
    simpl in E; try discriminate E; try reflexivity.
  - (* one byte each *)
    injection E as E1 E2.
    apply base64_char_inj in E1; [|sextet_bounds..].
    apply base64_char_inj in E2; [|sextet_bounds..].
    f_equal. apply byte_val_inj. sextet_bounds.
  - injection E as _ _ E3. symmetry in E3.
    apply base64_char_not_pad in E3; [contradiction | sextet_bounds].
  - injection E as _ _ E3 _. symmetry in E3.
    apply base64_char_not_pad in E3; [contradiction | sextet_bounds].
  - injection E as _ _ E3. apply base64_char_not_pad in E3; [contradiction | sextet_bounds].
  - injection E as E1 E2 E3.
    apply base64_char_inj in E1; [|sextet_bounds..].
    apply base64_char_inj in E2; [|sextet_bounds..].
    apply base64_char_inj in E3; [|sextet_bounds..].
    f_equal; [|f_equal]; apply byte_val_inj; sextet_bounds.
  - injection E as _ _ _ E4 _. symmetry in E4.
    apply base64_char_not_pad in E4; [contradiction | sextet_bounds].
  - injection E as _ _ E3 _. apply base64_char_not_pad in E3; [contradiction | sextet_bounds].
  - injection E as _ _ _ E4 _. apply base64_char_not_pad in E4; [contradiction | sextet_bounds].
  - injection E as E1 E2 E3 E4 E5.
    apply base64_char_inj in E1; [|sextet_bounds..].
    apply base64_char_inj in E2; [|sextet_bounds..].
    apply base64_char_inj in E3; [|sextet_bounds..].
    apply base64_char_inj in E4; [|sextet_bounds..].
    apply IH in E5; [|simpl; lia]. subst r2.
    f_equal; [|f_equal; [|f_equal]]; apply byte_val_inj; sextet_bounds.
Qed.

Lemma safe_char_inj (c d : ascii) :
  base64_output_char c -> base64_output_char d ->
  c <> "+"%char -> c <> "/"%char -> d <> "+"%char -> d <> "/"%char ->
  safe_char c = safe_char d -> c = d.
Proof.
  assert (Hus : "_"%char ∉ base64_alphabet).
  { apply (bool_decide_eq_false ("_"%char ∈ base64_alphabet)). vm_compute. reflexivity. }
  assert (Hout : forall x, base64_output_char x -> x <> "_"%char).
  { intros x [Hx | Hx] E; subst; [contradiction | discriminate]. }
  intros Hc Hd Hc1 Hc2 Hd1 Hd2. unfold safe_char.
  apply Ascii.eqb_neq in Hc1, Hc2, Hd1, Hd2. rewrite Hc1, Hc2, Hd1, Hd2. cbn [orb].
  destruct (Ascii.eqb_spec c "="), (Ascii.eqb_spec d "="); intros E.
  - congruence.
  - symmetry in E. now apply Hout in E.
  - now apply Hout in E.
  - exact E.
Qed.

Lemma map_safe_char_inj (l1 l2 : list ascii) :
  Forall base64_output_char l1 -> Forall base64_output_char l2 ->
  forallb (fun c => negb (Ascii.eqb c "+"%char || Ascii.eqb c "/"%char)) l1 = true ->
  forallb (fun c => negb (Ascii.eqb c "+"%char || Ascii.eqb c "/"%char)) l2 = true ->
  map safe_char l1 = map safe_char l2 -> l1 = l2.
Proof.
  intros F1. revert l2. induction F1 as [|c l1 Hc F1 IH]; intros l2 F2 P1 P2 E.
  - destruct l2; [reflexivity | discriminate E].
  - destruct F2 as [|d l2 Hd F2]; [discriminate E|].
    simpl in P1, P2, E. injection E as Ec El.
    apply andb_prop in P1 as [Pc P1]. apply andb_prop in P2 as [Pd P2].
    apply negb_true_iff, orb_false_elim in Pc as [Pc1 Pc2].
    apply negb_true_iff, orb_false_elim in Pd as [Pd1 Pd2].
    apply Ascii.eqb_neq in Pc1, Pc2, Pd1, Pd2.
    f_equal; [now apply safe_char_inj | now apply IH].
Qed.

Lemma of_chars_inj (l1 l2 : list ascii) : of_chars l1 = of_chars l2 -> l1 = l2.
Proof.
  intros E. rewrite <- (chars_of_chars l1), <- (chars_of_chars l2). now rewrite E.
Qed.

(** At the last position of a three-byte group the characters [>] and [?]
    encode to [+] and [/], which the replacement both turns into [_]. *)
Example safeKey_merges : safeKey "aa>" = "YWE_" /\ safeKey "aa?" = "YWE_".
Proof. split; reflexivity. Qed.

(** C4, as stated, fails: two distinct logical keys share one cache file. *)
Lemma getCacheFilePath_collision :
  getCacheFilePath "/home/u/.studylib/cache" "aa>"
    = getCacheFilePath "/home/u/.studylib/cache" "aa?"
  /\ "aa>" <> "aa?".
Proof. split; [reflexivity | discriminate]. Qed.

(** C4 (amended): the file name is a function of the cache directory and the
    key alone, and on keys whose base64 text contains neither [+] nor [/] it is
    injective: two such keys have the same cache file exactly when they are the
    same key. *)
Theorem getCacheFilePath_injective_on_plain_keys (dir k1 k2 : string) :
  plain_base64 k1 = true -> plain_base64 k2 = true ->
  (getCacheFilePath dir k1 = getCacheFilePath dir k2 <-> k1 = k2).
Proof.
  intros P1 P2. split; [|now intros ->].
  unfold getCacheFilePath, path_join, safeKey. intros E.
  do 2 apply append_inv_head in E. apply append_inv_tail in E.
  apply of_chars_inj in E.
  apply map_safe_char_inj in E; try apply base64_encode_chars; try assumption.
  apply base64_encode_inj in E. now apply chars_inj.
Qed.

Lemma getCacheFilePath_injective_on_plain_keys_witness :
  getCacheFilePath "/home/u/.studylib/cache" "lodash:0a1f"
    = getCacheFilePath "/home/u/.studylib/cache" "lodash:0a1f"
  <-> "lodash:0a1f" = "lodash:0a1f".
Proof.
  apply (getCacheFilePath_injective_on_plain_keys
           "/home/u/.studylib/cache" "lodash:0a1f" "lodash:0a1f");
    reflexivity.
Defined.

(** Every key made of ASCII characters other than [>], [?], [~] and DEL has a
    base64 text without [+] and [/]: library names, versions and hexadecimal
    digests are such keys. *)
Lemma base64_char_plain (n : Z) :
  0 <= n < 62 ->
  negb (Ascii.eqb (base64_char n) "+"%char || Ascii.eqb (base64_char n) "/"%char) = true.
Proof.
  intros Hn. apply negb_true_iff, orb_false_intro; apply Ascii.eqb_neq; intros E.
  - change "+"%char with (base64_char 62) in E. apply base64_char_inj in E; lia.
  - change "/"%char with (base64_char 63) in E. apply base64_char_inj in E; lia.
Qed.

Lemma ascii_keys_plain (key : string) :
  Forall key_char_ok (chars key) -> plain_base64 key = true.
Proof.
  unfold plain_base64. generalize (chars key) as bytes. clear key.
  induction bytes as [bytes IH] using (induction_ltof1 _ (@length ascii)).
  unfold ltof in IH. intros F.
  destruct bytes as [|a [|b [|c rest]]]; simpl.
  - reflexivity.
  - inversion F as [|? ? [Ha1 Ha2] _]; subst.
    rewrite !base64_char_plain by sextet_bounds. reflexivity.
  - inversion F as [|? ? [Ha1 Ha2] F']; subst.
    inversion F' as [|? ? [Hb1 Hb2] _]; subst.
    rewrite !base64_char_plain by sextet_bounds. reflexivity.
  - inversion F as [|? ? [Ha1 Ha2] F']; subst.
    inversion F' as [|? ? [Hb1 Hb2] F'']; subst.
    inversion F'' as [|? ? [Hc1 Hc2] F3]; subst.
    rewrite !base64_char_plain by sextet_bounds. simpl.
    apply IH; [simpl; lia | exact F3].
Qed.

(** ** The file system primitives *)

Lemma same_machine_refl (w : World) : same_machine w w.
Proof. repeat split. Qed.

Lemma same_machine_trans (w1 w2 w3 : World) :
  same_machine w1 w2 -> same_machine w2 w3 -> same_machine w1 w3.
Proof.
  unfold same_machine. intros (?&?&?&?&?&?&?&?) (?&?&?&?&?&?&?&?).
  repeat split; congruence.
Qed.

Lemma same_machine_with_dirs (d : gmap string (gmap string file)) (w : World) :
  same_machine w (with_dirs d w).
Proof. repeat split. Qed.

Lemma same_machine_fault_free (w w' : World) :
  same_machine w w' -> fault_free w -> fault_free w'.
Proof. intros (Hf & _) F op. rewrite Hf. apply F. Qed.

Lemma fs_guard_ok (op : fs_op) (w : World) :
  w_fault w op = false -> fs_guard op w = (Ok tt, w).
Proof. unfold fs_guard. now intros ->. Qed.

Lemma fs_guard_fail (op : fs_op) (w : World) :
  w_fault w op = true -> fs_guard op w = (Throw (RuntimeError "EIO"), w).
Proof. unfold fs_guard. now intros ->. Qed.

Lemma bind_ok {S A B} (m : M S A) (k : A -> M S B) (s s' : S) (a : A) :
  m s = (Ok a, s') -> bind m k s = k a s'.
Proof. unfold bind. now intros ->. Qed.

Lemma bind_throw {S A B} (m : M S A) (k : A -> M S B) (s s' : S) (e : exn) :
  m s = (Throw e, s') -> bind m k s = (Throw e, s').
Proof. unfold bind. now intros ->. Qed.

(** Concrete runs: split the conjunctions, evaluate each side. *)
Ltac conjuncts := repeat match goal with |- _ /\ _ => split end.
Ltac evaluate := vm_compute; reflexivity.

(** ** Construction: defaults and the singleton *)

Lemma or_number_nonzero (x : option Z) (d : Z) : d <> 0 -> or_number x d <> 0.
Proof. intros Hd. destruct x as [[| |]|]; simpl; lia. Qed.

Lemma or_string_nonempty (x : option string) (d : string) :
  d <> "" -> or_string x d <> "".
Proof. intros Hd. destruct x as [[|c s]|]; simpl; congruence. Qed.

Lemma path_join_nonempty (dir name : string) : path_join dir name <> "".
Proof. unfold path_join. destruct dir; discriminate. Qed.

Lemma or_string_path_join (dir name d : string) :
  or_string (Some (path_join dir name)) d = path_join dir name.
Proof.
  pose proof (path_join_nonempty dir name) as Hn.
  destruct (path_join dir name); [contradiction | reflexivity].
Qed.

Lemma initializeCache_ok (self : CacheManager) (w : World) :
  w_fault w (OpMkdir (cacheDir self)) = false ->
  exists w', initializeCache self w = (Ok tt, w') /\ same_machine w w'.
Proof.
  intros Hf. unfold initializeCache, try_catch, bind, existsSync, gets, mkdirSync.
  destruct (w_dirs w !! cacheDir self) as [entries|] eqn:E; simpl.
  - exists w. split; [reflexivity | apply same_machine_refl].
  - destruct (lookup_file (cacheDir self) w); simpl.
    + exists w. split; [reflexivity | apply same_machine_refl].
    + unfold bind. rewrite (fs_guard_ok _ _ Hf). unfold modify. rewrite E.
      eexists. split; [reflexivity | apply same_machine_with_dirs].
Qed.

Lemma CacheManager_new_ok (options : option CacheOptions) (w : World) :
  fault_free w ->
  exists w', CacheManager_new options w = (Ok (configured (w_homedir w) options), w')
             /\ same_machine w w'.
Proof.
  intros F. unfold CacheManager_new, bind, gets.
  destruct (initializeCache_ok (configured (w_homedir w) options) w (F _))
    as (w' & E & S).
  unfold configured, default_cacheDir in E. rewrite E.
  exists w'. split; [reflexivity | exact S].
Qed.

Lemma CacheManager_getInstance_first (options : option CacheOptions) (w : World) :
  fault_free w -> w_CacheManager_instance w = None ->
  exists w', CacheManager_getInstance options w
             = (Ok (configured (w_homedir w) options), w')
             /\ w_CacheManager_instance w' = Some (configured (w_homedir w) options)
             /\ w_AIResponseCache_instance w' = w_AIResponseCache_instance w
             /\ w_homedir w' = w_homedir w
             /\ fault_free w'.
Proof.
  intros F N. unfold CacheManager_getInstance, bind, gets. rewrite N.
  destruct (CacheManager_new_ok options w F) as (w' & E & S).
  unfold bind. rewrite E. unfold modify, ret. eexists. split; [reflexivity|].
  destruct S as (Sf & _ & Sh & _ & _ & _ & _ & Sa).
  simpl. repeat split; try assumption.
  intros op. simpl. rewrite Sf. apply F.
Qed.

Lemma CacheManager_getInstance_later (options : option CacheOptions)
    (i : CacheManager) (w : World) :
  w_CacheManager_instance w = Some i ->
  CacheManager_getInstance options w = (Ok i, w).
Proof. intros E. unfold CacheManager_getInstance, bind, gets. now rewrite E. Qed.

(** C10: a configured zero is never honoured.  With [ttl: 0] the manager
    expires entries after 24 hours, with [maxSize: 0] it allows 100MB, and with
    [cacheDir: ''] it uses the default directory under the home directory. *)
Theorem CacheManager_new_falsy_defaults (o : CacheOptions) (w : World) :
  fault_free w ->
  exists self w',
    CacheManager_new (Some o) w = (Ok self, w')
    /\ (opt_ttl o = Some 0 -> ttl self = 24 * 60 * 60 * 1000)
    /\ (opt_maxSize o = Some 0 -> maxSize self = 100 * 1024 * 1024)
    /\ (opt_cacheDir o = Some "" ->
        cacheDir self = path_join (path_join (w_homedir w) ".studylib") "cache")
    /\ ttl self <> 0 /\ maxSize self <> 0 /\ cacheDir self <> "".
Proof.
  intros F. destruct (CacheManager_new_ok (Some o) w F) as (w' & E & _).
  exists (configured (w_homedir w) (Some o)), w'. split; [exact E|]. simpl.
  repeat split.
  - now intros ->.
  - now intros ->.
  - now intros ->.
  - now apply or_number_nonzero.
  - now apply or_number_nonzero.
  - apply or_string_nonempty, path_join_nonempty.
Qed.

Lemma CacheManager_new_falsy_defaults_witness :
  exists self w',
    CacheManager_new
      (Some {| opt_cacheDir := Some ""; opt_ttl := Some 0; opt_maxSize := Some 0 |})
      fresh_world = (Ok self, w')
    /\ ttl self = 86400000 /\ maxSize self = 104857600
    /\ cacheDir self = "/home/u/.studylib/cache".
Proof.
  destruct (CacheManager_new_falsy_defaults
              {| opt_cacheDir := Some ""; opt_ttl := Some 0; opt_maxSize := Some 0 |}
              fresh_world (fun _ => eq_refl))
    as (self & w' & E & Ht & Hm & Hd & _).
  exists self, w'. split; [exact E|].
  split; [exact (Ht eq_refl)|]. split; [exact (Hm eq_refl) | exact (Hd eq_refl)].
Defined.

(** C1 fails on the code: [CacheManager.getInstance] ignores its options once
    an instance exists.  On a machine without faults where no singleton exists
    yet, constructing the resolver and then asking for the documentation
    response cache (the order of [StudyLibContext]) leaves the response cache
    on the resolver's own store: the [library-cache] directory, a 7-day TTL and
    the default 100MB limit. *)
Theorem AIResponseCache_shares_resolver_store (w : World) :
  fault_free w ->
  w_CacheManager_instance w = None ->
  w_AIResponseCache_instance w = None ->
  exists resolver w1 ai w2,
    RequireLibraryContext_new w = (Ok resolver, w1)
    /\ AIResponseCache_getInstance w1 = (Ok ai, w2)
    /\ cache ai = fileCache resolver
    /\ cacheDir (cache ai)
       = path_join (path_join (w_homedir w) ".studylib") "library-cache"
    /\ ttl (cache ai) = 7 * 24 * 60 * 60 * 1000
    /\ maxSize (cache ai) = 100 * 1024 * 1024.
Proof.
  intros F N NA.
  destruct (CacheManager_getInstance_first
              (Some (library_cache_options (w_homedir w))) w F N)
    as (w1 & E & I1 & A1 & H1 & F1).
  unfold RequireLibraryContext_new, bind, gets. rewrite E.
  eexists _, w1. unfold ret.
  unfold AIResponseCache_getInstance, AIResponseCache_new, bind, gets.
  rewrite A1, NA.
  rewrite (CacheManager_getInstance_later _ _ _ I1).
  unfold modify, ret. eexists _, _. split; [reflexivity|]. split; [reflexivity|].
  simpl. repeat split. apply or_string_path_join.
Qed.

Lemma AIResponseCache_shares_resolver_store_witness :
  exists resolver w1 ai w2,
    RequireLibraryContext_new fresh_world = (Ok resolver, w1)
    /\ AIResponseCache_getInstance w1 = (Ok ai, w2)
    /\ cache ai = fileCache resolver
    /\ cacheDir (cache ai) = "/home/u/.studylib/library-cache"
    /\ ttl (cache ai) = 604800000
    /\ maxSize (cache ai) = 104857600.
Proof.
  exact (AIResponseCache_shares_resolver_store fresh_world
           (fun _ => eq_refl) eq_refl eq_refl).
Defined.

(** In the other order it is the resolver that ends up on the response cache's
    store: whichever component comes second gets the first one's store. *)
Lemma resolver_shares_AIResponseCache_store (w : World) :
  fault_free w ->
  w_CacheManager_instance w = None ->
  w_AIResponseCache_instance w = None ->
  exists ai w1 resolver w2,
    AIResponseCache_getInstance w = (Ok ai, w1)
    /\ RequireLibraryContext_new w1 = (Ok resolver, w2)
    /\ fileCache resolver = cache ai
    /\ cacheDir (fileCache resolver)
       = path_join (path_join (w_homedir w) ".studylib") "ai-cache"
    /\ ttl (fileCache resolver) = 30 * 24 * 60 * 60 * 1000.
Proof.
  intros F N NA.
  destruct (CacheManager_getInstance_first
              (Some (ai_cache_options (w_homedir w))) w F N)
    as (w1 & E & I1 & A1 & H1 & F1).
  unfold AIResponseCache_getInstance, AIResponseCache_new, bind, gets.
  rewrite NA. unfold bind, gets. rewrite E. unfold modify, ret.
  set (store := configured (w_homedir w) (Some (ai_cache_options (w_homedir w)))) in *.
  exists {| cache := store |},
         (with_AIResponseCache_instance (Some {| cache := store |}) w1).
  unfold RequireLibraryContext_new, bind, gets.
  rewrite (CacheManager_getInstance_later _ store) by exact I1.
  eexists _, _. split; [reflexivity|]. split; [reflexivity|].
  simpl. repeat split. apply or_string_path_join.
Qed.

(** ** Failure policy of the store *)

Lemma remove_file_same_machine (p : string) (w : World) :
  same_machine w (remove_file p w).
Proof.
  unfold remove_file. destruct (split_path p) as [d n].
  destruct (w_dirs w !! d); [apply same_machine_with_dirs | apply same_machine_refl].
Qed.

Lemma store_file_same_machine (p : string) (f : file) (w : World) :
  same_machine w (store_file p f w).
Proof.
  unfold store_file. destruct (split_path p) as [d n].
  destruct (w_dirs w !! d); [apply same_machine_with_dirs | apply same_machine_refl].
Qed.

Lemma unlink_same_machine (p : string) (w w' : World) (r : result unit) :
  unlink p w = (r, w') -> same_machine w w'.
Proof.
  unfold unlink, bind, fs_guard. destruct (w_fault w (OpUnlink p)).
  - intros [= <- <-]. apply same_machine_refl.
  - destruct (lookup_file p w); intros [= <- <-];
      [apply remove_file_same_machine | apply same_machine_refl].
Qed.

Lemma unlink_fault (p : string) (w : World) :
  w_fault w (OpUnlink p) = true -> unlink p w = (Throw (RuntimeError "EIO"), w).
Proof. intros Hf. unfold unlink, bind. now rewrite (fs_guard_fail _ _ Hf). Qed.

(** [Promise.all] over effectful calls rejects as soon as one of them does. *)
Lemma forall_settled_throws {S A} (f : A -> M S unit) (P : S -> Prop) (x0 : A) :
  (forall x s r s', P s -> f x s = (r, s') -> P s') ->
  (forall s, P s -> exists e s', f x0 s = (Throw e, s')) ->
  forall l s, In x0 l -> P s -> exists e s', forall_settled f l s = (Throw e, s').
Proof.
  intros Hpres Hfail. induction l as [|x l IH]; intros s Hin HP; [destruct Hin|].
  simpl. destruct (f x s) as [[[]|e] s1] eqn:E.
  - destruct Hin as [-> | Hin].
    + destruct (Hfail s HP) as (e & s' & E'). congruence.
    + apply IH; [exact Hin | eapply Hpres; eauto].
  - destruct (forall_settled f l s1) as [r s2]. eauto.
Qed.

Lemma CacheManager_clear_unlink_fails (self : CacheManager) (w : World)
    (files : list string) (file : string) :
  readdir (cacheDir self) w = (Ok files, w) ->
  In file files ->
  w_fault w (OpUnlink (path_join (cacheDir self) file)) = true ->
  exists w', CacheManager_clear self w
             = (Throw (StudylibError "Failed to clear cache" CONFIG_ERROR), w').
Proof.
  intros Hdir Hin Hf. unfold CacheManager_clear, try_catch, bind. rewrite Hdir.
  destruct (forall_settled_throws
              (fun file => unlink (path_join (cacheDir self) file))
              (fun s => w_fault s = w_fault w) file) with (l := files) (s := w)
    as (e & s' & E); try assumption; try reflexivity.
  - intros x s r s' Hs Hx. apply unlink_same_machine in Hx as (Hx & _). congruence.
  - intros s Hs. exists (RuntimeError "EIO"), s. apply unlink_fault. now rewrite Hs.
  - rewrite E. unfold throw. eauto.
Qed.

(** C7: [get], [set] and [delete] return normally in every state of the file
    system, whatever fails inside them, and a read that fails is a miss;
    [clear] throws a [CONFIG_ERROR] whenever the directory cannot be listed or
    one of the removals fails; so does the constructor when the directory is
    missing and cannot be created. *)
Theorem CacheManager_failure_policy {V : Type} `{Json V}
    (self : CacheManager) (w : World) :
  (forall key, exists r w', CacheManager_get self key w = (Ok r, w'))
  /\ (forall key,
        w_fault w (OpReadFile (getCacheFilePath (cacheDir self) key)) = true ->
        exists w', CacheManager_get self key w = (Ok None, w'))
  /\ (forall key v, exists w', CacheManager_set self key v w = (Ok tt, w'))
  /\ (forall key, exists w', CacheManager_delete self key w = (Ok tt, w'))
  /\ (forall e w0, readdir (cacheDir self) w = (Throw e, w0) ->
        exists w', CacheManager_clear self w
                   = (Throw (StudylibError "Failed to clear cache" CONFIG_ERROR), w'))
  /\ (forall files file,
        readdir (cacheDir self) w = (Ok files, w) ->
        In file files ->
        w_fault w (OpUnlink (path_join (cacheDir self) file)) = true ->
        exists w', CacheManager_clear self w
                   = (Throw (StudylibError "Failed to clear cache" CONFIG_ERROR), w'))
  /\ (forall options,
        let dir := cacheDir (configured (w_homedir w) options) in
        existsSync dir w = (Ok false, w) ->
        w_fault w (OpMkdir dir) = true ->
        exists w', CacheManager_new options w
                   = (Throw (StudylibError "Failed to initialize cache directory"
                               CONFIG_ERROR), w')).
Proof.
  repeat apply conj.
  - intros key. unfold CacheManager_get, try_catch.
    match goal with |- context [match ?b w with _ => _ end] => destruct (b w) as [[r|e] w'] end;
      unfold ret; eauto.
  - intros key Hf. unfold CacheManager_get, try_catch, bind.
    unfold existsSync, gets.
    match goal with |- context [negb ?b] => destruct b end; simpl.
    + unfold readFile, bind. rewrite (fs_guard_fail _ _ Hf). unfold ret. eauto.
    + unfold ret. eauto.
  - intros key v. unfold CacheManager_set, try_catch.
    match goal with |- context [match ?b w with _ => _ end] => destruct (b w) as [[[]|e] w'] end;
      unfold ret; eauto.
  - intros key. unfold CacheManager_delete, try_catch.
    match goal with |- context [match ?b w with _ => _ end] => destruct (b w) as [[[]|e] w'] end;
      unfold ret; eauto.
  - intros e w0 Hdir. unfold CacheManager_clear, try_catch, bind. rewrite Hdir.
    unfold throw. eauto.
  - intros files file. apply CacheManager_clear_unlink_fails.
  - intros options dir Hex Hf. unfold CacheManager_new, bind, gets.
    fold (default_cacheDir (w_homedir w)). fold (configured (w_homedir w) options).
    unfold initializeCache, try_catch, bind. fold dir. rewrite Hex. simpl.
    unfold mkdirSync, bind. rewrite (fs_guard_fail _ _ Hf). unfold throw. eauto.
Qed.

Lemma CacheManager_failure_policy_witness :
  (exists w', @CacheManager_get string line_codec default_store "foo" readonly_world
              = (Ok (Some "bar"), w'))
  /\ (exists w', CacheManager_clear default_store readonly_world
                 = (Throw (StudylibError "Failed to clear cache" CONFIG_ERROR), w')).
Proof.
  destruct (@CacheManager_failure_policy string line_codec default_store readonly_world)
    as (_ & _ & _ & _ & _ & Hclear & _).
  split.
  - eexists. vm_compute. reflexivity.
  - apply (Hclear ["Zm9v.json"] "Zm9v.json").
    + vm_compute. reflexivity.
    + left. reflexivity.
    + reflexivity.
Defined.

(** ** Validation of library names *)

Lemma segments_nonempty (p : string) : segments p <> [].
Proof.
  destruct p as [|c r]; simpl; [discriminate|].
  destruct (Ascii.eqb c "/"); [discriminate|].
  destruct (segments r); discriminate.
Qed.

(** The first segment of a path is a prefix of the path. *)
Lemma segments_head_prefix (p seg : string) (segs : list string) :
  segments p = seg :: segs -> String.prefix seg p = true.
Proof.
  revert seg segs. induction p as [|c r IH]; intros seg segs E; simpl in E.
  - injection E as <- _. reflexivity.
  - destruct (Ascii.eqb c "/").
    + injection E as <- _. reflexivity.
    + destruct (segments r) as [|seg' segs'] eqn:Er.
      * injection E as <- _. simpl. destruct (ascii_dec c c); [|contradiction].
        now destruct r.
      * injection E as <- _. simpl. destruct (ascii_dec c c); [|contradiction].
        now apply (IH seg' segs').
Qed.

(** A path with a [..] segment contains the text [..]. *)
Lemma dotdot_segment_included (p : string) :
  In ".." (segments p) -> includes p ".." = true.
Proof.
  induction p as [|c r IH]; intros Hin.
  - simpl in Hin. destruct Hin as [Hin | []]. discriminate Hin.
  - cbn [includes]. apply orb_true_iff. cbn [segments] in Hin.
    destruct (Ascii.eqb c "/").
    + destruct Hin as [Hin | Hin]; [discriminate Hin|]. right. now apply IH.
    + destruct (segments r) as [|seg segs] eqn:Er.
      * now destruct (segments_nonempty r).
      * destruct Hin as [Hin | Hin].
        -- left. injection Hin as -> ->.
           apply segments_head_prefix in Er.
           destruct r as [|c' r']; [discriminate Er|].
           cbn [String.prefix] in Er |- *.
           destruct (ascii_dec "." ".") as [_|D]; [|now destruct D].
           destruct (ascii_dec "." c') as [_|D]; [exact Er | discriminate Er].
        -- right. apply IH. now right.
Qed.

Section ResolverValidation.
Context `{Json payload} `{Sha256}.

Lemma validateLibraryName_rejects {S} (name : string) (s : S) :
  name = ""
  \/ In ".." (segments (path_normalize name))
  \/ path_isAbsolute (path_normalize name) = true ->
  exists msg,
    validateLibraryName name s = (Throw (StudylibError msg VALIDATION_ERROR), s).
Proof.
  intros Hbad. unfold validateLibraryName.
  destruct (String.eqb_spec name "") as [->|Hne].
  - eexists. reflexivity.
  - destruct Hbad as [E | [Hseg | Habs]]; [contradiction | |].
    + rewrite (dotdot_segment_included _ Hseg). simpl. eexists. reflexivity.
    + rewrite Habs, orb_true_r. eexists. reflexivity.
Qed.

(** C8: an empty name, and a name whose normal form has a [..] segment or
    is absolute, is rejected by [context] and by [getPackageInfo] with a
    [VALIDATION_ERROR]; the resolver and the world are left as they were, so
    nothing has been resolved, read or loaded.  The name [../etc] is such a
    name. *)
Theorem invalid_names_rejected (name : string) (h : Heap) :
  name = ""
  \/ In ".." (segments (path_normalize name))
  \/ path_isAbsolute (path_normalize name) = true ->
  (exists msg,
      context name h = (Throw (StudylibError msg VALIDATION_ERROR), h)
      /\ getPackageInfo name h = (Throw (StudylibError msg VALIDATION_ERROR), h))
  /\ context "../etc" h = (Throw invalid_name_error, h).
Proof.
  intros Hbad. split.
  - destruct (validateLibraryName_rejects name h Hbad) as (msg & E).
    exists msg. unfold context, getPackageInfo, bind. rewrite E. split; reflexivity.
  - reflexivity.
Qed.
End ResolverValidation.

Example path_normalize_examples :
  path_normalize "../etc" = "../etc"
  /\ path_normalize "lodash/../../etc" = "../etc"
  /\ path_normalize "./lodash//fp/" = "lodash/fp/"
  /\ path_normalize "/etc/../usr" = "/usr"
  /\ path_normalize "@types/node" = "@types/node".
Proof. repeat split. Qed.

Lemma invalid_names_rejected_witness :
  exists msg,
    @context unserializable verbatim_digest "lodash/../../etc" fresh_heap
      = (Throw (StudylibError msg VALIDATION_ERROR), fresh_heap)
    /\ @getPackageInfo unserializable verbatim_digest "lodash/../../etc" fresh_heap
      = (Throw (StudylibError msg VALIDATION_ERROR), fresh_heap).
Proof.
  apply (@invalid_names_rejected unserializable verbatim_digest
           "lodash/../../etc" fresh_heap).
  right. left. vm_compute. left. reflexivity.
Defined.

(** ** The documentation cache key *)

Lemma Z_to_int_nonnil (z : Z) :
  Z.to_int z <> Decimal.Pos Decimal.Nil /\ Z.to_int z <> Decimal.Neg Decimal.Nil.
Proof.
  destruct z as [|p|p]; simpl; split; try discriminate;
    intros [= E]; now apply Unsigned.to_uint_nonnil in E.
Qed.

Lemma string_of_number_inj (m n : Z) :
  string_of_number m = string_of_number n -> m = n.
Proof.
  unfold string_of_number. intros E.
  apply (f_equal NilZero.int_of_string) in E.
  destruct (Z_to_int_nonnil m) as [Hm1 Hm2]. destruct (Z_to_int_nonnil n) as [Hn1 Hn2].
  rewrite !NilZero.isi in E by assumption. injection E as E.
  rewrite <- (DecimalZ.of_to m), <- (DecimalZ.of_to n). now rewrite E.
Qed.

(** The text that is hashed changes with any single component. *)
Lemma cacheKeyData_sensitive (n v t : string) (i : Z) (n' v' t' : string) (i' : Z) :
  one_component_changed n v t i n' v' t' i' ->
  cacheKeyData n v t i <> cacheKeyData n' v' t' i'.
Proof.
  unfold cacheKeyData.
  intros [(Hn & -> & -> & ->) | [(-> & Hv & -> & ->) | [(-> & -> & Ht & ->) | (-> & -> & -> & Hi)]]] E.
  - apply append_inv_tail in E. contradiction.
  - do 2 apply append_inv_head in E. apply append_inv_tail in E. contradiction.
  - do 4 apply append_inv_head in E. apply append_inv_tail in E. contradiction.
  - do 6 apply append_inv_head in E. apply string_of_number_inj in E. contradiction.
Qed.

(** C9: the key is a function of the four arguments, and two tuples that
    differ in exactly one component are hashed from different texts, so that
    their keys differ unless the digest collides on these two texts. *)
Theorem generateCacheKey_deterministic_and_sensitive `{Sha256}
    (n v t : string) (i : Z) (n' v' t' : string) (i' : Z) :
  (n = n' -> v = v' -> t = t' -> i = i' ->
   generateCacheKey n v t i = generateCacheKey n' v' t' i')
  /\ (one_component_changed n v t i n' v' t' i' ->
      (sha256_hex (cacheKeyData n v t i) = sha256_hex (cacheKeyData n' v' t' i') ->
       cacheKeyData n v t i = cacheKeyData n' v' t' i') ->
      generateCacheKey n v t i <> generateCacheKey n' v' t' i').
Proof.
  split.
  - now intros -> -> -> ->.
  - intros Hchg Hres E. unfold generateCacheKey in E.
    now apply (cacheKeyData_sensitive _ _ _ _ _ _ _ _ Hchg), Hres.
Qed.

Lemma generateCacheKey_deterministic_and_sensitive_witness :
  @generateCacheKey verbatim_digest "lodash" "4.17.21" "openai" 5
    <> @generateCacheKey verbatim_digest "lodash" "4.17.21" "openai" 10.
Proof.
  apply (@generateCacheKey_deterministic_and_sensitive verbatim_digest
           "lodash" "4.17.21" "openai" 5 "lodash" "4.17.21" "openai" 10).
  - right. right. right. repeat split. discriminate.
  - intros E. exact E.
Defined.

(** ** The in-memory tier *)

Section JsMapFacts.
Context {T : Type}.
Implicit Types (m : list (string * T)) (k : string) (v : T).

Lemma Map_set_fresh k v m : ~ In k (map fst m) -> Map_set k v m = m ++ [(k, v)].
Proof.
  induction m as [|[k' v'] m IH]; intros Hk; simpl; [reflexivity|].
  destruct (String.eqb_spec k k') as [->|Hne].
  - exfalso. apply Hk. now left.
  - rewrite IH; [reflexivity|]. intros Hin. apply Hk. now right.
Qed.

Lemma Map_get_app_fresh k v m : Map_get k (m ++ [(k, v)]) <> None.
Proof.
  induction m as [|[k' v'] m IH]; simpl.
  - now rewrite String.eqb_refl.
  - now destruct (String.eqb k k').
Qed.
End JsMapFacts.

Lemma drop_expired_none (now : Z) (m : list (string * LibraryCache)) :
  Forall (fun kv => now - lastAccessed (snd kv) <= memoryCacheTimeout) m ->
  drop_expired now m = m.
Proof.
  unfold drop_expired. intros F.
  enough (G : forall acc : list (string * LibraryCache),
             fold_left (fun acc kv =>
                          if now - lastAccessed (snd kv) >? memoryCacheTimeout
                          then Map_delete (fst kv) acc else acc) m acc = acc)
    by apply G.
  induction F as [|kv m Hkv F IH]; intros acc; simpl; [reflexivity|].
  destruct (Z.gtb_spec (now - lastAccessed (snd kv)) memoryCacheTimeout); [lia|].
  apply IH.
Qed.

Lemma insert_at_fresh (now : Z) (name : string) (c : LibraryCache) (h : Heap) :
  Forall (fun kv => now - lastAccessed (snd kv) <= memoryCacheTimeout)
         (memoryCache (this h)) ->
  (length (memoryCache (this h)) <= 50)%nat ->
  ~ In name (map fst (memoryCache (this h))) ->
  insert_at now name c h
  = (Ok tt,
     {| this := {| memoryCache := memoryCache (this h) ++ [(name, c)];
                   fileCache := fileCache (this h) |};
        world := with_clock now (world h) |}).
Proof.
  intros F Hlen Hk.
  unfold insert_at, setInMemoryCache, cleanMemoryCache, bind, in_world, zoom,
    modify, Date_now, gets, set_memoryCache. simpl.
  rewrite (drop_expired_none _ _ F).
  destruct (Z.gtb_spec (Map_size (memoryCache (this h))) maxMemoryCacheSize) as [Hgt|_].
  - unfold Map_size, maxMemoryCacheSize in Hgt. lia.
  - unfold ret. simpl. now rewrite (Map_set_fresh _ _ _ Hk).
Qed.

Lemma insert_all_fresh (t0 : Z) (items : list (Z * (string * LibraryCache))) :
  forall h : Heap,
    Forall (fun kv => t0 <= lastAccessed (snd kv)) (memoryCache (this h)) ->
    Forall (fun item => fresh_at t0 (fst item) (snd (snd item))) items ->
    (length (memoryCache (this h)) + length items <= 51)%nat ->
    NoDup (map fst (memoryCache (this h)) ++ map (fun item => fst (snd item)) items) ->
    exists h',
      insert_all items h = (Ok tt, h')
      /\ memoryCache (this h') = memoryCache (this h) ++ map snd items.
Proof.
  induction items as [|[now [name c]] items IH]; intros h Fm Fi Hlen Hnd.
  - exists h. split; [reflexivity | now rewrite app_nil_r].
  - inversion Fi as [|? ? [Hc Hnow] Fi']; subst. simpl in Hlen, Hc, Hnow.
    cbn [insert_all]. unfold bind at 1.
    rewrite insert_at_fresh.
    + match goal with |- context [insert_all items ?h1] => destruct (IH h1) as (h' & E & Em) end.
      * simpl. apply Forall_app. split; [exact Fm|]. now repeat constructor.
      * exact Fi'.
      * simpl. rewrite length_app. simpl. lia.
      * simpl. rewrite map_app. simpl. rewrite <- app_assoc. exact Hnd.
      * exists h'. split; [exact E|]. rewrite Em. simpl. now rewrite <- app_assoc.
    + eapply Forall_impl; [exact Fm|]. intros kv Hkv. simpl in Hkv. lia.
    + lia.
    + simpl in Hnd. apply NoDup_app in Hnd as (_ & Hdisj & _).
      intros Hin. apply (Hdisj name); [now apply list_elem_of_In | left].
Qed.

(** C6 fails on the code: after 51 insertions the map holds 51 entries, and
    the least recently accessed of them, [lib0], is still there. *)
Theorem memoryCache_holds_51_libraries :
  let h' := after (insert_all (libraries 51)) fresh_heap in
  outcome (insert_all (libraries 51)) fresh_heap = Ok tt
  /\ Map_size (memoryCache (this h')) = 51
  /\ Map_get "lib0" (memoryCache (this h')) = Some (library_entry 1700000000000).
Proof. cbv zeta. conjuncts; evaluate. Qed.

(** The capacity is enforced by the insertion that follows: the 52nd insertion
    drops [lib0] and leaves 51 entries again. *)
Example memoryCache_after_52_libraries :
  let h' := after (insert_all (libraries 52)) fresh_heap in
  outcome (insert_all (libraries 52)) fresh_heap = Ok tt
  /\ Map_size (memoryCache (this h')) = 51
  /\ Map_get "lib0" (memoryCache (this h')) = None
  /\ Map_get "lib1" (memoryCache (this h')) = Some (library_entry 1700000000001).
Proof. cbv zeta. conjuncts; evaluate. Qed.

(** This holds for every choice of libraries: [setInMemoryCache] cleans up
    before it inserts, so inserting 51 distinct libraries, none of which expires
    meanwhile, into an empty map leaves all 51 of them present, in insertion
    order. *)
Lemma memoryCache_keeps_51_entries (t0 : Z)
    (items : list (Z * (string * LibraryCache))) (h : Heap) :
  memoryCache (this h) = [] ->
  length items = 51%nat ->
  NoDup (map (fun item => fst (snd item)) items) ->
  Forall (fun item => fresh_at t0 (fst item) (snd (snd item))) items ->
  exists h',
    insert_all items h = (Ok tt, h')
    /\ memoryCache (this h') = map snd items
    /\ Map_size (memoryCache (this h')) = 51.
Proof.
  intros Hm Hlen Hnd Hfresh.
  destruct (insert_all_fresh t0 items h) as (h' & E & Em).
  - rewrite Hm. constructor.
  - exact Hfresh.
  - rewrite Hm, Hlen. simpl. lia.
  - rewrite Hm. exact Hnd.
  - exists h'. rewrite Hm in Em. simpl in Em. repeat split; [exact E | exact Em |].
    unfold Map_size. rewrite Em, length_map, Hlen. reflexivity.
Qed.

Lemma memoryCache_keeps_51_entries_witness :
  exists h',
    insert_all (libraries 51) fresh_heap = (Ok tt, h')
    /\ memoryCache (this h') = map snd (libraries 51)
    /\ Map_size (memoryCache (this h')) = 51.
Proof.
  apply (memoryCache_keeps_51_entries 1700000000000 (libraries 51) fresh_heap).
  - reflexivity.
  - reflexivity.
  - apply (bool_decide_unpack (NoDup (map (fun item => fst (snd item)) (libraries 51)))).
    vm_compute. exact I.
  - apply List.Forall_forall. intros item Hin.
    unfold libraries in Hin. apply in_map_iff in Hin as (i & <- & Hi).
    apply in_seq in Hi. unfold fresh_at, memoryCacheTimeout. simpl. lia.
Defined.

(** ** Paths inside the cache directory *)

Lemma includes_slash_chars (s : string) :
  has_slash s = true <-> In "/"%char (chars s).
Proof.
  unfold has_slash. induction s as [|c s IH]; cbn [includes chars list_ascii_of_string].
  - split; [discriminate | intros []].
  - cbn [String.prefix]. destruct (ascii_dec "/" c) as [<-|Hne].
    + split; [now left | now destruct s].
    + cbn [orb]. rewrite IH. unfold chars. split; [now right | intros [E|Hin]; congruence].
Qed.

Lemma has_slash_join (dir name : string) : has_slash (path_join dir name) = true.
Proof.
  apply includes_slash_chars. unfold path_join. rewrite !chars_app.
  apply in_or_app. right. now left.
Qed.

Lemma split_path_join (dir name : string) :
  has_slash name = false -> split_path (path_join dir name) = (dir, name).
Proof.
  intros Hn. induction dir as [|c dir IH].
  - change (path_join "" name) with (String "/" name).
    cbn [split_path]. rewrite Hn. reflexivity.
  - change (path_join (String c dir) name) with (String c (path_join dir name)).
    cbn [split_path]. now rewrite has_slash_join, IH.
Qed.

Lemma safe_char_not_slash (c : ascii) : safe_char c <> "/"%char.
Proof.
  unfold safe_char. destruct (Ascii.eqb_spec c "/") as [->|Hne]; [discriminate|].
  cbn [orb]. now destruct (Ascii.eqb c "+" || Ascii.eqb c "=").
Qed.

(** This is what the replacement is for: the file name has no separator. *)
Lemma cache_file_name_no_slash (key : string) :
  has_slash (safeKey key +:+ ".json") = false.
Proof.
  apply not_true_iff_false. rewrite includes_slash_chars.
  unfold safeKey. rewrite chars_app, chars_of_chars. intros Hin.
  apply in_app_or in Hin as [Hin | Hin].
  - apply in_map_iff in Hin as (c & Hc & _). now apply safe_char_not_slash in Hc.
  - simpl in Hin. repeat destruct Hin as [Hin | Hin]; try discriminate Hin. exact Hin.
Qed.

Lemma split_cache_file_path (dir key : string) :
  split_path (getCacheFilePath dir key) = (dir, safeKey key +:+ ".json").
Proof. apply split_path_join, cache_file_name_no_slash. Qed.

(** ** Reading and writing single files *)

Lemma lookup_file_split (p d n : string) (w : World) :
  split_path p = (d, n) ->
  lookup_file p w = match w_dirs w !! d with
                    | Some entries => entries !! n
                    | None => None
                    end.
Proof. unfold lookup_file. now intros ->. Qed.

Lemma store_file_split (p d n : string) (f : file) (w : World)
    (entries : gmap string file) :
  split_path p = (d, n) -> w_dirs w !! d = Some entries ->
  store_file p f w = with_dirs (<[d := <[n := f]> entries]> (w_dirs w)) w.
Proof. unfold store_file. now intros -> ->. Qed.

Lemma remove_file_split (p d n : string) (w : World) (entries : gmap string file) :
  split_path p = (d, n) -> w_dirs w !! d = Some entries ->
  remove_file p w = with_dirs (<[d := delete n entries]> (w_dirs w)) w.
Proof. unfold remove_file. now intros -> ->. Qed.

Lemma evolves_refl (w : World) : evolves w w.
Proof. split; [apply same_machine_refl | auto]. Qed.

Lemma evolves_trans (w1 w2 w3 : World) : evolves w1 w2 -> evolves w2 w3 -> evolves w1 w3.
Proof.
  intros [S1 D1] [S2 D2]. split; [eapply same_machine_trans; eauto | auto].
Qed.

Lemma remove_file_evolves (p : string) (w : World) : evolves w (remove_file p w).
Proof.
  split; [apply remove_file_same_machine|]. intros d Hd.
  unfold remove_file. destruct (split_path p) as [d' n].
  destruct (w_dirs w !! d') eqn:E; [|exact Hd]. simpl.
  destruct (decide (d' = d)) as [->|Hne];
    [rewrite lookup_insert_eq; eauto | now rewrite lookup_insert_ne].
Qed.

Lemma store_file_evolves (p : string) (f : file) (w : World) :
  evolves w (store_file p f w).
Proof.
  split; [apply store_file_same_machine|]. intros d Hd.
  unfold store_file. destruct (split_path p) as [d' n].
  destruct (w_dirs w !! d') eqn:E; [|exact Hd]. simpl.
  destruct (decide (d' = d)) as [->|Hne];
    [rewrite lookup_insert_eq; eauto | now rewrite lookup_insert_ne].
Qed.

Lemma unlink_evolves (p : string) (w w' : World) (r : result unit) :
  unlink p w = (r, w') -> evolves w w'.
Proof.
  unfold unlink, bind, fs_guard. destruct (w_fault w (OpUnlink p)).
  - intros [= <- <-]. apply evolves_refl.
  - destruct (lookup_file p w); intros [= <- <-];
      [apply remove_file_evolves | apply evolves_refl].
Qed.

Lemma stat_readonly (p : string) (w : World) : snd (stat p w) = w.
Proof.
  unfold stat, bind, fs_guard. destruct (w_fault w (OpStat p)); [reflexivity|].
  now destruct (lookup_file p w).
Qed.

Lemma readdir_readonly (p : string) (w : World) : snd (readdir p w) = w.
Proof.
  unfold readdir, bind, fs_guard. destruct (w_fault w (OpReaddir p)); [reflexivity|].
  now destruct (w_dirs w !! p).
Qed.

Lemma mapM_readonly {S A B} (f : A -> M S B) (l : list A) (s : S) :
  (forall x s, snd (f x s) = s) -> snd (mapM f l s) = s.
Proof.
  intros Hf. revert s. induction l as [|x l IH]; intros s; [reflexivity|].
  cbn [mapM]. unfold bind. specialize (Hf x s).
  destruct (f x s) as [[y|e] s1]; simpl in Hf; subst s1; [|reflexivity].
  specialize (IH s). destruct (mapM f l s) as [[ys|e] s1]; simpl in IH; now subst s1.
Qed.

Lemma stat_then_readonly {B} (g : Stats -> B) (p : string) (w : World) :
  snd ((stats <- stat p ;; ret (g stats)) w) = w.
Proof.
  unfold bind. pose proof (stat_readonly p w) as Hs.
  destruct (stat p w) as [[st|err] w1]; exact Hs.
Qed.

Lemma getCacheSize_readonly (self : CacheManager) (w : World) :
  exists n, getCacheSize self w = (Ok n, w).
Proof.
  unfold getCacheSize, try_catch, bind.
  pose proof (readdir_readonly (cacheDir self) w) as Hr.
  destruct (readdir (cacheDir self) w) as [[files|e] w1]; simpl in Hr; subst w1;
    [|unfold ret; eauto].
  match goal with |- context [mapM ?f files w] =>
    pose proof (mapM_readonly f files w) as Hm; destruct (mapM f files w) as [[sizes|e] w1]
  end; simpl in Hm; rewrite Hm; unfold ret; eauto;
    intros x s; apply stat_then_readonly.
Qed.

Lemma evict_until_evolves (self : CacheManager) (l : list (string * Stats)) :
  forall sz w r w', evict_until self sz l w = (r, w') -> evolves w w'.
Proof.
  induction l as [|[file stats] l IH]; intros sz w r w' E; cbn [evict_until] in E.
  - injection E as _ <-. apply evolves_refl.
  - destruct (sz <=? maxSize self).
    + injection E as _ <-. apply evolves_refl.
    + unfold bind in E.
      destruct (unlink (path_join (cacheDir self) file) w) as [[[]|e] w1] eqn:Eu.
      * apply unlink_evolves in Eu. apply IH in E. eapply evolves_trans; eauto.
      * injection E as _ <-. now apply unlink_evolves in Eu.
Qed.

(** [ensureCacheSpace] never throws, and only removes files. *)
Lemma ensureCacheSpace_total (self : CacheManager) (w : World) :
  exists w', ensureCacheSpace self w = (Ok tt, w') /\ evolves w w'.
Proof.
  unfold ensureCacheSpace, bind.
  destruct (getCacheSize_readonly self w) as (n & ->).
  destruct (n >? maxSize self); [|exists w; split; [reflexivity | apply evolves_refl]].
  unfold try_catch, bind.
  pose proof (readdir_readonly (cacheDir self) w) as Hr.
  destruct (readdir (cacheDir self) w) as [[files|e] w1]; simpl in Hr; subst w1;
    [|exists w; split; [reflexivity | apply evolves_refl]].
  match goal with |- context [mapM ?f files w] =>
    pose proof (mapM_readonly f files w) as Hm; destruct (mapM f files w) as [[stats|e] w1]
  end; simpl in Hm; rewrite Hm; try (intros x s; apply stat_then_readonly).
  - match goal with |- context [evict_until self n ?l w] =>
      destruct (evict_until self n l w) as [[[]|e] w2] eqn:Ee
    end; apply evict_until_evolves in Ee; unfold ret; eauto.
  - exists w. split; [reflexivity | apply evolves_refl].
Qed.

Lemma lookup_store_file (p : string) (f : file) (w : World) :
  is_Some (w_dirs w !! fst (split_path p)) ->
  lookup_file p (store_file p f w) = Some f.
Proof.
  unfold lookup_file, store_file. destruct (split_path p) as [d n]. simpl.
  intros [entries E]. rewrite E. simpl. now rewrite !lookup_insert_eq.
Qed.

Lemma lookup_remove_file (p : string) (w : World) :
  lookup_file p (remove_file p w) = None.
Proof.
  unfold lookup_file, remove_file. destruct (split_path p) as [d n].
  destruct (w_dirs w !! d) as [entries|] eqn:E; simpl.
  - now rewrite lookup_insert_eq, lookup_delete_eq.
  - now rewrite E.
Qed.

Lemma lookup_file_dir (p : string) (f : file) (w : World) :
  lookup_file p w = Some f -> is_Some (w_dirs w !! fst (split_path p)).
Proof.
  unfold lookup_file. destruct (split_path p) as [d n]. simpl.
  destruct (w_dirs w !! d); [eauto | discriminate].
Qed.

Lemma existsSync_file (p : string) (f : file) (w : World) :
  lookup_file p w = Some f -> existsSync p w = (Ok true, w).
Proof.
  intros E. unfold existsSync, gets. rewrite E. now destruct (w_dirs w !! p).
Qed.

Lemma CacheManager_delete_total (self : CacheManager) (key : string) (w : World) :
  exists w', CacheManager_delete self key w = (Ok tt, w').
Proof.
  unfold CacheManager_delete, try_catch.
  match goal with |- context [match ?b w with _ => _ end] => destruct (b w) as [[[]|e] w'] end;
    unfold ret; eauto.
Qed.

Section StoreValues.
Context {V : Type} `{Json V}.

(** A [set] on a healthy machine writes the serialized entry. *)
Lemma CacheManager_set_writes (self : CacheManager) (key : string) (v : V)
    (text : string) (w : World) :
  fault_free w ->
  is_Some (w_dirs w !! cacheDir self) ->
  JSON_stringify {| timestamp := w_clock w; value := v |} = Some text ->
  exists w0 t,
    ensureCacheSpace self w = (Ok tt, w0)
    /\ CacheManager_set self key v w
       = (Ok tt, store_file (getCacheFilePath (cacheDir self) key)
                   {| f_data := text; f_atime := t |} w0)
    /\ evolves w w0.
Proof.
  intros F Hdir Hs. unfold CacheManager_set, try_catch, bind.
  destruct (ensureCacheSpace_total self w) as (w0 & E0 & [S0 D0]).
  rewrite E0. unfold Date_now, gets, stringify_entry.
  destruct S0 as (Sf & Sc & S0). rewrite Sc, Hs. unfold ret.
  unfold writeFile, bind. rewrite fs_guard_ok by (rewrite Sf; apply F).
  rewrite split_cache_file_path.
  destruct (D0 _ Hdir) as [entries E]. rewrite E.
  eexists w0, _. split; [reflexivity|]. split; [reflexivity|].
  split; [|exact D0]. repeat split; tauto.
Qed.

(** A [get] on a healthy machine, for a key whose file holds an entry. *)
Lemma CacheManager_get_entry (self : CacheManager) (key : string)
    (f : file) (ts : Z) (v : V) (w : World) :
  fault_free w ->
  lookup_file (getCacheFilePath (cacheDir self) key) w = Some f ->
  JSON_parse (f_data f) = Some {| timestamp := ts; value := v |} ->
  (w_clock w - ts <= ttl self ->
   exists w', CacheManager_get self key w = (Ok (Some v), w'))
  /\ (w_clock w - ts > ttl self ->
      exists w', CacheManager_get self key w = (Ok None, w')
                 /\ lookup_file (getCacheFilePath (cacheDir self) key) w' = None).
Proof.
  intros F Hf Hp.
  set (p := getCacheFilePath (cacheDir self) key) in *.
  set (w2 := store_file p {| f_data := f_data f; f_atime := w_clock w |} w).
  assert (Hget : CacheManager_get self key w
                 = (if w_clock w - ts >? ttl self
                    then (CacheManager_delete self key ;;; ret None) w2
                    else (Ok (Some v), w2))).
  { unfold CacheManager_get, try_catch, bind. fold p.
    rewrite (existsSync_file _ _ _ Hf). simpl.
    unfold readFile, bind. rewrite (fs_guard_ok _ _ (F _)). rewrite Hf. fold w2.
    unfold parse_entry. rewrite Hp. unfold ret, Date_now, gets.
    destruct (store_file_same_machine p {| f_data := f_data f; f_atime := w_clock w |} w)
      as (_ & Sc & _). fold w2 in Sc. rewrite Sc. simpl.
    destruct (w_clock w - ts >? ttl self); [|reflexivity].
    unfold bind. now destruct (CacheManager_delete_total self key w2) as (w3 & ->). }
  split; intros Hc; rewrite Hget.
  - destruct (Z.gtb_spec (w_clock w - ts) (ttl self)); [lia | eauto].
  - destruct (Z.gtb_spec (w_clock w - ts) (ttl self)); [|lia].
    assert (Hf2 : lookup_file p w2
                  = Some {| f_data := f_data f; f_atime := w_clock w |}).
    { apply lookup_store_file. eapply lookup_file_dir; eauto. }
    unfold bind, CacheManager_delete, try_catch, bind. fold p.
    rewrite (existsSync_file _ _ _ Hf2).
    unfold unlink, bind. rewrite fs_guard_ok.
    + rewrite Hf2. unfold ret. eexists. split; [reflexivity|].
      apply lookup_remove_file.
    + destruct (store_file_same_machine p {| f_data := f_data f; f_atime := w_clock w |} w)
        as (Sf & _). fold w2 in Sf. rewrite Sf. apply F.
Qed.

(** C2 (amended): on a machine without faults, for a store whose directory
    exists and a value that survives serialization, [get] returns the value
    as long as no more than the store's TTL has elapsed since the [set], and
    afterwards returns absent and removes the file.  The store's TTL is never
    zero (a configured zero is replaced by 24 hours), so there is no
    zero-grace store. *)
Theorem set_then_get_within_ttl (self : CacheManager) (key : string) (v : V)
    (text : string) (w : World) :
  fault_free w ->
  is_Some (w_dirs w !! cacheDir self) ->
  JSON_stringify {| timestamp := w_clock w; value := v |} = Some text ->
  JSON_parse text = Some {| timestamp := w_clock w; value := v |} ->
  exists w1,
    CacheManager_set self key v w = (Ok tt, w1)
    /\ (forall elapsed, elapsed <= ttl self ->
        exists w2, CacheManager_get self key (with_clock (w_clock w + elapsed) w1)
                   = (Ok (Some v), w2))
    /\ (forall elapsed, elapsed > ttl self ->
        exists w2, CacheManager_get self key (with_clock (w_clock w + elapsed) w1)
                   = (Ok None, w2)
                   /\ lookup_file (getCacheFilePath (cacheDir self) key) w2 = None).
Proof.
  intros F Hdir Hs Hp.
  destruct (CacheManager_set_writes self key v text w F Hdir Hs)
    as (w0 & t & _ & Eset & [S0 D0]).
  eexists. split; [exact Eset|].
  set (p := getCacheFilePath (cacheDir self) key) in *.
  set (f := {| f_data := text; f_atime := t |}) in *.
  assert (F1 : forall now, fault_free (with_clock now (store_file p f w0))).
  { intros now op. simpl.
    destruct (store_file_same_machine p f w0) as (Sf & _). rewrite Sf.
    destruct S0 as (Sf0 & _). rewrite Sf0. apply F. }
  assert (L1 : forall now, lookup_file p (with_clock now (store_file p f w0)) = Some f).
  { intros now. change (lookup_file p (with_clock now (store_file p f w0)))
      with (lookup_file p (store_file p f w0)).
    apply lookup_store_file. unfold p. rewrite split_cache_file_path. simpl.
    now apply D0. }
  split; intros elapsed He.
  - destruct (CacheManager_get_entry self key f (w_clock w) v _
                (F1 (w_clock w + elapsed)) (L1 (w_clock w + elapsed)) Hp)
      as [Hlive _].
    apply Hlive. simpl. lia.
  - destruct (CacheManager_get_entry self key f (w_clock w) v _
                (F1 (w_clock w + elapsed)) (L1 (w_clock w + elapsed)) Hp)
      as [_ Hdead].
    apply Hdead. simpl. lia.
Qed.
End StoreValues.

Lemma line_codec_roundtrip (ts : Z) (v : string) :
  @JSON_parse string line_codec (string_of_number ts +:+ ";" +:+ v)
  = Some {| timestamp := ts; value := v |}.
Proof.
  assert (Hsplit : forall a b : string,
             ~ In ";"%char (chars a) -> split_semicolon (a +:+ ";" +:+ b) = Some (a, b)).
  { induction a as [|c a IH]; intros b Ha; simpl.
    - reflexivity.
    - destruct (Ascii.eqb_spec c ";") as [->|Hne]; [exfalso; apply Ha; now left|].
      rewrite IH; [reflexivity|]. intros Hin. apply Ha. now right. }
  assert (Hdigits : forall u : Decimal.uint, ~ In ";"%char (chars (NilEmpty.string_of_uint u))).
  { induction u; simpl; intros Hin;
      try (destruct Hin as [Hin|Hin]; [discriminate Hin | now apply IHu]).
    exact Hin. }
  assert (Hnum : ~ In ";"%char (chars (string_of_number ts))).
  { unfold string_of_number, NilZero.string_of_int.
    destruct (Z.to_int ts) as [u|u]; unfold NilZero.string_of_uint.
    - destruct u; try apply Hdigits. simpl. intros [Hin|[]]. discriminate Hin.
    - simpl. intros [Hin|Hin]; [discriminate Hin|].
      destruct u; try (revert Hin; apply Hdigits). simpl in Hin.
      destruct Hin as [Hin|[]]. discriminate Hin. }
  simpl. rewrite (Hsplit _ _ Hnum).
  unfold string_of_number. destruct (Z_to_int_nonnil ts) as [H1 H2].
  rewrite NilZero.isi by assumption. now rewrite DecimalZ.of_to.
Qed.

(** C2, as stated, fails for a TTL configured as zero: the store is built
    with a TTL of 24 hours, and the value is returned right after the [set],
    and still an hour later. *)
Lemma zero_ttl_set_then_get_returns_value :
  let w0 := after (CacheManager_new (Some zero_ttl_options)) fresh_world in
  let w1 := after (@CacheManager_set string line_codec default_store "foo" "bar") w0 in
  outcome (CacheManager_new (Some zero_ttl_options)) fresh_world = Ok default_store
  /\ outcome (@CacheManager_set string line_codec default_store "foo" "bar") w0 = Ok tt
  /\ outcome (@CacheManager_get string line_codec default_store "foo") w1
     = Ok (Some "bar")
  /\ outcome (@CacheManager_get string line_codec default_store "foo")
       (with_clock (w_clock w1 + 3600000) w1) = Ok (Some "bar").
Proof. cbv zeta. conjuncts; evaluate. Qed.

Lemma set_then_get_within_ttl_witness :
  exists w1,
    @CacheManager_set string line_codec default_store "foo" "bar" world_with_cache
      = (Ok tt, w1)
    /\ (exists w2,
          @CacheManager_get string line_codec default_store "foo"
            (with_clock (w_clock world_with_cache + 0) w1) = (Ok (Some "bar"), w2))
    /\ (exists w2,
          @CacheManager_get string line_codec default_store "foo"
            (with_clock (w_clock world_with_cache + 86400001) w1) = (Ok None, w2)
          /\ lookup_file (getCacheFilePath (cacheDir default_store) "foo") w2 = None).
Proof.
  destruct (@set_then_get_within_ttl string line_codec default_store "foo" "bar"
              "1700000000000;bar" world_with_cache)
    as (w1 & Eset & Hlive & Hdead).
  - intros op. reflexivity.
  - vm_compute. eauto.
  - reflexivity.
  - vm_compute. reflexivity.
  - exists w1. split; [exact Eset|]. split.
    + apply Hlive. vm_compute. discriminate.
    + apply Hdead. reflexivity.
Defined.

(** ** Sorting *)

Section SortBy.
Context {A : Type} (key : A -> Z).

Lemma insert_by_Permutation (x : A) (l : list A) :
  Permutation (insert_by key x l) (x :: l).
Proof.
  induction l as [|y l IH]; simpl; [reflexivity|].
  destruct (key x <=? key y); [reflexivity|].
  rewrite IH. apply perm_swap.
Qed.

Lemma sort_by_Permutation (l : list A) : Permutation (sort_by key l) l.
Proof.
  induction l as [|x l IH]; simpl; [reflexivity|].
  rewrite insert_by_Permutation. now rewrite IH.
Qed.

Lemma insert_by_ascending (x : A) (l : list A) :
  ascending key l -> ascending key (insert_by key x l).
Proof.
  unfold ascending. induction 1 as [|y l Hs IH Hy]; simpl.
  - repeat constructor.
  - destruct (Z.leb_spec (key x) (key y)) as [Hle|Hgt].
    + constructor; [now constructor|].
      constructor; [exact Hle|].
      eapply List.Forall_impl; [|exact Hy]. intros z Hz. simpl in Hz. lia.
    + constructor; [exact IH|].
      eapply Permutation_Forall; [symmetry; apply insert_by_Permutation|].
      constructor; [lia | exact Hy].
Qed.

Lemma sort_by_ascending (l : list A) : ascending key (sort_by key l).
Proof.
  induction l as [|x l IH]; simpl; [constructor | now apply insert_by_ascending].
Qed.

Lemma ascending_app (l1 l2 : list A) (x y : A) :
  ascending key (l1 ++ l2) -> In x l1 -> In y l2 -> key x <= key y.
Proof.
  unfold ascending. induction l1 as [|z l1 IH]; simpl; intros Hs Hx Hy; [destruct Hx|].
  inversion Hs as [|? ? Hs' Hz]; subst.
  destruct Hx as [->|Hx]; [|now apply IH].
  rewrite List.Forall_forall in Hz. apply Hz. apply in_or_app. now right.
Qed.
End SortBy.

(** ** Sizes *)

Lemma listing_size_Permutation (l1 l2 : list (string * Stats)) :
  Permutation l1 l2 -> listing_size l1 = listing_size l2.
Proof.
  induction 1 as [|x l1 l2 _ IH|x y l|l1 l2 l3 _ IH1 _ IH2]; simpl;
    [reflexivity | now rewrite IH | lia | congruence].
Qed.

Lemma listing_size_nonneg (entries : gmap string file) : 0 <= dir_size entries.
Proof.
  unfold dir_size, listing. induction (map_to_list entries) as [|kv l IH]; simpl; [lia|].
  unfold f_size. lia.
Qed.

Lemma fold_left_add_sizes (l : list (string * Stats)) :
  fold_left Z.add (map (fun fs => size (snd fs)) l) 0 = listing_size l.
Proof.
  enough (G : forall acc, fold_left Z.add (map (fun fs => size (snd fs)) l) acc
                          = acc + listing_size l) by (rewrite G; lia).
  induction l as [|fs l IH]; intros acc; simpl; [lia|]. rewrite IH. lia.
Qed.

Lemma listing_delete (entries : gmap string file) (name : string) (f : file) :
  entries !! name = Some f ->
  Permutation ((name, stats_of f) :: listing (delete name entries)) (listing entries).
Proof.
  intros E. unfold listing.
  change ((name, stats_of f) :: map (fun kv => (fst kv, stats_of (snd kv)))
                                   (map_to_list (delete name entries)))
    with (map (fun kv : string * file => (fst kv, stats_of (snd kv)))
              ((name, f) :: map_to_list (delete name entries))).
  apply Permutation_map. now apply map_to_list_delete.
Qed.

Lemma in_listing (entries : gmap string file) (name : string) (st : Stats) :
  In (name, st) (listing entries) <->
  exists f, entries !! name = Some f /\ st = stats_of f.
Proof.
  unfold listing. rewrite in_map_iff. split.
  - intros ([n f] & [= <- <-] & Hin). exists f. split; [|reflexivity].
    now apply elem_of_map_to_list, list_elem_of_In.
  - intros (f & E & ->). exists (name, f). split; [reflexivity|].
    now apply list_elem_of_In, elem_of_map_to_list.
Qed.

Lemma dir_size_delete (entries : gmap string file) (name : string) (f : file) :
  entries !! name = Some f ->
  dir_size entries = f_size f + dir_size (delete name entries).
Proof.
  intros E. unfold dir_size.
  now rewrite <- (listing_size_Permutation _ _ (listing_delete _ _ _ E)).
Qed.

Lemma dir_size_insert (entries : gmap string file) (name : string) (f : file) :
  dir_size (<[name := f]> entries) <= dir_size entries + f_size f.
Proof.
  rewrite (dir_size_delete (<[name := f]> entries) name f) by apply lookup_insert_eq.
  rewrite delete_insert_eq.
  destruct (entries !! name) as [old|] eqn:E.
  - rewrite (dir_size_delete entries name old E). unfold f_size. lia.
  - rewrite delete_id by exact E. lia.
Qed.

Lemma dir_size_empty_listing (entries : gmap string file) :
  Permutation (listing entries) [] -> dir_size entries = 0.
Proof. intros P. unfold dir_size. now rewrite (listing_size_Permutation _ _ P). Qed.

(** ** Files of the cache directory *)

Lemma names_ok_delete (entries : gmap string file) (name : string) :
  names_ok entries -> names_ok (delete name entries).
Proof.
  intros Hok n [f Hn]. apply Hok.
  destruct (decide (name = n)) as [->|Hne].
  - now rewrite lookup_delete_eq in Hn.
  - rewrite lookup_delete_ne in Hn by exact Hne. eauto.
Qed.

Lemma stat_in_dir (dir name : string) (f : file) (entries : gmap string file)
    (w : World) :
  fault_free w -> w_dirs w !! dir = Some entries -> entries !! name = Some f ->
  has_slash name = false ->
  stat (path_join dir name) w = (Ok (stats_of f), w).
Proof.
  intros F Hd Hn Hs. unfold stat, bind. rewrite (fs_guard_ok _ _ (F _)).
  rewrite (lookup_file_split _ dir name) by now apply split_path_join.
  now rewrite Hd, Hn.
Qed.

Lemma unlink_in_dir (dir name : string) (f : file) (entries : gmap string file)
    (w : World) :
  fault_free w -> w_dirs w !! dir = Some entries -> entries !! name = Some f ->
  has_slash name = false ->
  unlink (path_join dir name) w
  = (Ok tt, with_dirs (<[dir := delete name entries]> (w_dirs w)) w).
Proof.
  intros F Hd Hn Hs. unfold unlink, bind. rewrite (fs_guard_ok _ _ (F _)).
  rewrite (lookup_file_split _ dir name) by now apply split_path_join.
  rewrite Hd, Hn.
  now rewrite (remove_file_split _ dir name _ entries) by (try apply split_path_join; assumption).
Qed.

Lemma readdir_in_dir (dir : string) (entries : gmap string file) (w : World) :
  fault_free w -> w_dirs w !! dir = Some entries ->
  readdir dir w = (Ok (map fst (listing entries)), w).
Proof.
  intros F Hd. unfold readdir, bind. rewrite (fs_guard_ok _ _ (F _)), Hd.
  unfold listing. rewrite map_map. reflexivity.
Qed.

Lemma mapM_stat_in_dir {B} (g : string -> Stats -> B) (dir : string)
    (entries : gmap string file) (w : World) (l : list (string * Stats)) :
  fault_free w -> w_dirs w !! dir = Some entries -> names_ok entries ->
  (forall name st, In (name, st) l -> In (name, st) (listing entries)) ->
  mapM (fun file => stats <- stat (path_join dir file) ;; ret (g file stats))
       (map fst l) w
  = (Ok (map (fun fs => g (fst fs) (snd fs)) l), w).
Proof.
  intros F Hd Hok.
  set (fn := fun file : string =>
               stats <- stat (path_join dir file) ;; ret (g file stats)).
  induction l as [|[name st] l IH]; intros Hin; [reflexivity|].
  cbn [map mapM fst snd].
  assert (Hfn : fn name w = (Ok (g name st), w)).
  { destruct (proj1 (in_listing entries name st)) as (f & Hf & ->); [apply Hin; now left|].
    unfold fn, bind.
    now rewrite (stat_in_dir dir name f entries w F Hd Hf) by (apply Hok; eauto). }
  unfold bind. rewrite Hfn, IH; [reflexivity|].
  intros n s Hns. apply Hin. now right.
Qed.

Lemma getCacheSize_in_dir (self : CacheManager) (entries : gmap string file)
    (w : World) :
  fault_free w -> w_dirs w !! cacheDir self = Some entries -> names_ok entries ->
  getCacheSize self w = (Ok (dir_size entries), w).
Proof.
  intros F Hd Hok. unfold getCacheSize, try_catch.
  rewrite (bind_ok _ _ _ _ _ (readdir_in_dir _ _ _ F Hd)).
  rewrite (bind_ok _ _ _ _ _
             (mapM_stat_in_dir (fun _ stats => size stats) _ entries w (listing entries)
                F Hd Hok (fun _ _ Hin => Hin))).
  unfold ret. f_equal. f_equal. apply fold_left_add_sizes.
Qed.

(** The eviction loop removes a prefix of the list it is given, and stops as
    soon as what is left fits. *)
Lemma evict_until_spec (self : CacheManager) (l : list (string * Stats)) :
  forall (w : World) (entries : gmap string file),
    fault_free w ->
    w_dirs w !! cacheDir self = Some entries ->
    names_ok entries ->
    Permutation (listing entries) l ->
    exists evicted kept entries',
      l = evicted ++ kept
      /\ evict_until self (listing_size l) l w
         = (Ok tt, with_dirs (<[cacheDir self := entries']> (w_dirs w)) w)
      /\ Permutation (listing entries') kept
      /\ names_ok entries'
      /\ (listing_size kept <= maxSize self \/ kept = []).
Proof.
  induction l as [|[file stats] rest IH]; intros w entries F Hd Hok Hperm.
  - exists [], [], entries. repeat split; auto.
    cbn [evict_until]. unfold ret. rewrite insert_id by exact Hd. now destruct w.
  - cbn [evict_until].
    destruct (Z.leb_spec (listing_size ((file, stats) :: rest)) (maxSize self)) as [Hle|Hgt].
    + exists [], ((file, stats) :: rest), entries. repeat split; auto.
      unfold ret. rewrite insert_id by exact Hd. now destruct w.
    + destruct (proj1 (in_listing entries file stats)) as (f & Hf & ->).
      { eapply Permutation_in; [symmetry; exact Hperm | now left]. }
      unfold bind.
      rewrite (unlink_in_dir _ file f entries w F Hd Hf) by (apply Hok; eauto).
      set (w1 := with_dirs (<[cacheDir self := delete file entries]> (w_dirs w)) w).
      assert (Hperm1 : Permutation (listing (delete file entries)) rest).
      { apply (Permutation_cons_inv (a := (file, stats_of f))).
        now rewrite listing_delete. }
      destruct (IH w1 (delete file entries)) as (evicted & kept & entries' & El & Ee & Pk & Ok' & Hfit).
      * intros op. apply F.
      * simpl. apply lookup_insert_eq.
      * now apply names_ok_delete.
      * exact Hperm1.
      * exists ((file, stats_of f) :: evicted), kept, entries'.
        split; [now rewrite El|]. split; [|auto].
        replace (listing_size ((file, stats_of f) :: rest) - size (stats_of f))
          with (listing_size rest) by (simpl; lia).
        rewrite Ee. f_equal. unfold w1, with_dirs. simpl.
        now rewrite insert_insert_eq.
Qed.

(** [ensureCacheSpace] on a healthy machine: it removes the files that come
    first by access time, and what is left fits the limit. *)
Lemma ensureCacheSpace_spec (self : CacheManager) (entries : gmap string file)
    (w : World) :
  fault_free w ->
  w_dirs w !! cacheDir self = Some entries ->
  names_ok entries ->
  exists evicted kept entries',
    Permutation (listing entries) (evicted ++ kept)
    /\ ensureCacheSpace self w
       = (Ok tt, with_dirs (<[cacheDir self := entries']> (w_dirs w)) w)
    /\ Permutation (listing entries') kept
    /\ names_ok entries'
    /\ (0 <= maxSize self -> dir_size entries' <= maxSize self)
    /\ (forall a b, In a evicted -> In b kept -> atime (snd a) <= atime (snd b)).
Proof.
  intros F Hd Hok. unfold ensureCacheSpace.
  rewrite (bind_ok _ _ _ _ _ (getCacheSize_in_dir self entries w F Hd Hok)).
  destruct (Z.gtb_spec (dir_size entries) (maxSize self)) as [Hgt|Hle].
  - unfold try_catch.
    rewrite (bind_ok _ _ _ _ _ (readdir_in_dir _ _ _ F Hd)).
    rewrite (bind_ok _ _ _ _ _
               (mapM_stat_in_dir (fun file stats => (file, stats)) _ entries w
                  (listing entries) F Hd Hok (fun _ _ Hin => Hin))).
    replace (map (fun fs : string * Stats => (fst fs, snd fs)) (listing entries))
      with (listing entries)
      by (rewrite <- (map_id (listing entries)) at 1; apply map_ext; now intros []).
    set (sorted := sort_by (fun fs : string * Stats => atime (snd fs)) (listing entries)).
    assert (Psorted : Permutation (listing entries) sorted)
      by (symmetry; apply sort_by_Permutation).
    destruct (evict_until_spec self sorted w entries F Hd Hok Psorted)
      as (evicted & kept & entries' & El & Ee & Pk & Ok' & Hfit).
    replace (dir_size entries) with (listing_size sorted)
      by (symmetry; apply listing_size_Permutation, Psorted).
    rewrite Ee.
    exists evicted, kept, entries'. repeat split; auto.
    + now rewrite <- El.
    + intros Hmax. unfold dir_size. rewrite (listing_size_Permutation _ _ Pk).
      destruct Hfit as [Hfit | ->]; [exact Hfit | exact Hmax].
    + intros a b Ha Hb.
      apply (ascending_app (fun fs : string * Stats => atime (snd fs)) evicted kept a b);
        [|assumption..].
      rewrite <- El. apply sort_by_ascending.
  - exists [], (listing entries), entries. repeat split; auto.
    + unfold ret. rewrite insert_id by exact Hd. now destruct w.
    + intros a b [].
Qed.

Section StoreSize.
Context {V : Type} `{Json V}.

(** C5 (amended): the eviction runs before the write, so after a [set] on a
    healthy machine the directory holds at most [maxSize] bytes plus the
    entry just written; and every file the [set] has removed was last
    accessed no later than every other file it has left in place. *)
Theorem set_bounds_directory_size (self : CacheManager) (key : string) (v : V)
    (text : string) (w : World) (entries : gmap string file) :
  fault_free w ->
  w_dirs w !! cacheDir self = Some entries ->
  names_ok entries ->
  0 <= maxSize self ->
  JSON_stringify {| timestamp := w_clock w; value := v |} = Some text ->
  exists w' entries',
    CacheManager_set self key v w = (Ok tt, w')
    /\ w_dirs w' !! cacheDir self = Some entries'
    /\ dir_size entries' <= maxSize self + Z.of_nat (String.length text)
    /\ (forall n1 f1 n2 f2,
          entries !! n1 = Some f1 -> entries' !! n1 = None ->
          entries !! n2 = Some f2 -> is_Some (entries' !! n2) ->
          n2 <> safeKey key +:+ ".json" ->
          f_atime f1 <= f_atime f2).
Proof.
  intros F Hd Hok Hmax Hs.
  destruct (ensureCacheSpace_spec self entries w F Hd Hok)
    as (evicted & kept & kept_entries & Pall & Ee & Pk & Ok' & Hfit & Horder).
  destruct (CacheManager_set_writes self key v text w F (ex_intro _ _ Hd) Hs)
    as (w0 & t & Ee' & Eset & _).
  rewrite Ee in Ee'. injection Ee' as <-.
  set (fname := safeKey key +:+ ".json") in *.
  set (f := {| f_data := text; f_atime := t |}) in *.
  rewrite (store_file_split _ (cacheDir self) fname f _ kept_entries) in Eset;
    [|apply split_cache_file_path | simpl; apply lookup_insert_eq].
  eexists _, (<[fname := f]> kept_entries). split; [exact Eset|].
  split; [simpl; apply lookup_insert_eq|]. split.
  - pose proof (dir_size_insert kept_entries fname f) as Hins.
    specialize (Hfit Hmax). unfold f_size in Hins. simpl in Hins. lia.
  - intros n1 f1 n2 f2 H1 H1' H2 [f2' H2'] Hne.
    assert (Hn1 : n1 <> fname) by (intros ->; now rewrite lookup_insert_eq in H1').
    rewrite lookup_insert_ne in H1' by congruence.
    rewrite lookup_insert_ne in H2' by congruence.
    assert (In1 : In (n1, stats_of f1) evicted).
    { assert (Hin : In (n1, stats_of f1) (evicted ++ kept)).
      { eapply Permutation_in; [exact Pall|]. apply in_listing. eauto. }
      apply in_app_or in Hin as [Hin|Hin]; [exact Hin|].
      exfalso. eapply Permutation_in in Hin; [|symmetry; exact Pk].
      apply in_listing in Hin as (g & Hg & _). congruence. }
    assert (In2 : In (n2, stats_of f2') kept).
    { eapply Permutation_in; [exact Pk|]. apply in_listing. eauto. }
    assert (Hat : f_atime f2' = f_atime f2).
    { assert (Hin : In (n2, stats_of f2') (listing entries)).
      { eapply Permutation_in; [symmetry; exact Pall|]. apply in_or_app. now right. }
      apply in_listing in Hin as (g & Hg & Hst).
      rewrite H2 in Hg. injection Hg as <-.
      now apply (f_equal atime) in Hst. }
    specialize (Horder _ _ In1 In2). simpl in Horder. lia.
Qed.
End StoreSize.

(** C5, as stated, fails: a store of 100 entries of 10 bytes under a limit of
    1000 bytes is not over its limit, so nothing is evicted, and the new entry
    of 17 bytes takes the directory to 1017 bytes. *)
Lemma set_exceeds_maxSize :
  let w' := after (@CacheManager_set string line_codec small_store "foo" "bar")
                  full_world in
  dir_size ten_byte_files = 1000
  /\ maxSize small_store = 1000
  /\ outcome (@CacheManager_set string line_codec small_store "foo" "bar") full_world
     = Ok tt
  /\ option_map dir_size (w_dirs w' !! "/home/u/.studylib/cache") = Some 1017.
Proof. cbv zeta. conjuncts; evaluate. Qed.

Lemma set_bounds_directory_size_witness :
  exists w' entries',
    @CacheManager_set string line_codec default_store "baz" "qux" world_with_foo
      = (Ok tt, w')
    /\ w_dirs w' !! "/home/u/.studylib/cache" = Some entries'
    /\ dir_size entries' <= 104857600 + 17.
Proof.
  destruct (@set_bounds_directory_size string line_codec default_store "baz" "qux"
              "1700000000000;qux" world_with_foo {[ "Zm9v.json" := foo_file ]})
    as (w' & entries' & Eset & Hd & Hsize & _).
  - intros op. reflexivity.
  - reflexivity.
  - intros name [f Hf]. apply lookup_singleton_Some in Hf as [<- _]. reflexivity.
  - vm_compute. discriminate.
  - reflexivity.
  - exists w', entries'. split; [exact Eset|]. split; [exact Hd | exact Hsize].
Defined.

(** ** The resolver's in-memory tier is keyed by name alone *)

Lemma validateLibraryName_ok {S} (name : string) (s : S) :
  valid_name name = true -> validateLibraryName name s = (Ok tt, s).
Proof.
  unfold valid_name, validateLibraryName. intros Hv.
  apply andb_prop in Hv as [Hne Hok]. apply negb_true_iff in Hne, Hok.
  now rewrite Hne, Hok.
Qed.

Lemma getFromMemoryCache_hit (name : string) (c : LibraryCache) (h : Heap) :
  Map_get name (memoryCache (this h)) = Some c ->
  getFromMemoryCache name h
  = (Ok (Some (touch (w_clock (world h)) c)),
     {| this := {| memoryCache := Map_set name (touch (w_clock (world h)) c)
                                    (memoryCache (this h));
                   fileCache := fileCache (this h) |};
        world := world h |}).
Proof.
  intros Hc. unfold getFromMemoryCache, bind, gets. rewrite Hc. reflexivity.
Qed.

Section ResolverMemory.
Context `{Json payload} `{Sha256}.

(** Once the map holds an entry for a name, [context] answers from it
    without looking at the world: nothing is resolved, read, hashed or
    loaded, whatever the entry point now contains and however old the entry
    is. *)
Lemma context_serves_memory_entry (name : string) (c : LibraryCache) (h : Heap) :
  valid_name name = true ->
  Map_get name (memoryCache (this h)) = Some c ->
  truthy (exports c) = true ->
  exists h', context name h = (Ok (exports c), h') /\ world h' = world h.
Proof.
  intros Hv Hc Ht. unfold context.
  rewrite (bind_ok _ _ _ _ _ (validateLibraryName_ok name h Hv)).
  rewrite (bind_ok _ _ _ _ _ (getFromMemoryCache_hit name c h Hc)).
  cbn [touch exports]. rewrite Ht. unfold ret. eexists. split; reflexivity.
Qed.
End ResolverMemory.

(** C3 fails on the code.  A resolver loads [lodash] while its entry point
    holds the bytes [v1]; the file is then overwritten with [v2], so that its
    hash changes; a second later [context] still returns the exports of [v1],
    and the log shows that nothing was resolved or loaded for this call.  A
    resolver without the in-memory entry reloads and returns the exports of
    [v2]. *)
Theorem context_stale_after_file_change :
  let ctx := @context unserializable verbatim_digest "lodash" in
  let h0 := {| this := new_resolver; world := lodash_world "v1" |} in
  let h1 := file_changes "v2" 1000 (after ctx h0) in
  outcome ctx h0 = Ok (module_of "v1")
  /\ w_log (world (after ctx h0)) = [Resolved "lodash"; Loaded lodash_path;
                                     Resolved "lodash/package.json"]
  /\ outcome (@getFileHash verbatim_digest lodash_path) (world h0)
     <> outcome (@getFileHash verbatim_digest lodash_path) (world h1)
  /\ outcome ctx h1 = Ok (module_of "v1")
  /\ w_log (world (after ctx h1)) = w_log (world h1)
  /\ outcome ctx {| this := new_resolver; world := world h1 |} = Ok (module_of "v2").
Proof.
  cbv zeta. conjuncts; try evaluate. vm_compute. discriminate.
Qed.
